(** * Pokémon Generator Lab: the generation client and the token coordinator

    A shallow embedding of [services/pokemonApiService.ts] and of the
    coordinator code of [App.tsx] (token debit with rollback, resell,
    sorting, score), with the properties of the specification stated over
    it.

    Conventions.
    - JavaScript numbers that the code keeps integral (balances, prices,
      stats, HTTP status, milliseconds) are [Z]; a draw of [Math.random()]
      is a rational in the unit interval and [Math.floor] is [Qfloor], so
      the product with the small integer constants is taken exactly.
    - A rejected promise or a [throw] is the [Throw] completion; [await]
      is the bind of the completion monad.
    - React state is a record passed through the handlers; the values a
      handler closes over are the ones of the state it is invoked on, and
      the resell confirm handler, which is stored in state and run later,
      is a record of its captured values. *)

From Stdlib Require Import ZArith QArith Qround String List Bool Lia.
From Stdlib Require Import Permutation Sorted DecimalString.
Import ListNotations.

Local Open Scope string_scope.
Local Open Scope Z_scope.

(* ================================================================= *)
(** ** JavaScript runtime notions used by the sources *)

Module Js.

(** The constructor an error value was made with ([instanceof]). *)
Inductive ErrorClass := ErrorC | TypeErrorC | SyntaxErrorC | DOMExceptionC.

(** An error value: what [instanceof], [.name] and [.message] observe. *)
Record Error := mkError { cls : ErrorClass; name : string; message : string }.

Definition newError (m : string) : Error := mkError ErrorC "Error" m.
Definition newTypeError (m : string) : Error := mkError TypeErrorC "TypeError" m.

Definition instanceofTypeError (e : Error) : bool :=
  match cls e with TypeErrorC => true | _ => false end.

(** Outcome of evaluating a statement list or of awaiting a promise. *)
Inductive Completion (E A : Type) : Type :=
| Return (a : A)
| Throw (e : E).
Arguments Return {E A} a.
Arguments Throw {E A} e.

Definition bind {E A B} (c : Completion E A) (k : A -> Completion E B)
  : Completion E B :=
  match c with
  | Return a => k a
  | Throw e => Throw e
  end.

(** [p.catch(() => d)] on a promise. *)
Definition catchWith {E A} (c : Completion E A) (d : A) : A :=
  match c with
  | Return a => a
  | Throw _ => d
  end.

(** [`${n}`] for an integral number. *)
Definition numberToString (n : Z) : string :=
  NilZero.string_of_int (Z.to_int n).

(** [arr[i]] for an integral index: [undefined] out of range. *)
Definition arrayGet {A} (arr : list A) (i : Z) : option A :=
  if i <? 0 then None else nth_error arr (Z.to_nat i).

(** [arr.length]. *)
Definition arrayLength {A} (arr : list A) : Z := Z.of_nat (List.length arr).

(** [Math.floor (r * n)] for a draw [r] and an integral [n]. *)
Definition floorTimes (r : Q) (n : Z) : Z := Qfloor (r * inject_Z n).

(** Truthiness of an optional string property: [undefined] and the
    empty string are falsy. *)
Definition truthyString (v : option string) : bool :=
  match v with
  | Some s => negb (s =? "")%string
  | None => false
  end.

(** Truthiness of an optional number property: [undefined] and [0] are
    falsy. *)
Definition truthyNumber (v : option Z) : bool :=
  match v with
  | Some n => negb (n =? 0)
  | None => false
  end.

(** Truthiness of an optional object or enum-string property. *)
Definition truthyObject {A} (v : option A) : bool :=
  match v with
  | Some _ => true
  | None => false
  end.

(** [v || d] on an optional string. *)
Definition orString (v : option string) (d : string) : string :=
  match v with
  | Some s => if (s =? "")%string then d else s
  | None => d
  end.

(** A promise under an [await]: it settles, with a completion, or it
    stays pending for ever and the [await] never resumes. *)
Inductive Awaited (E A : Type) : Type :=
| Settles (c : Completion E A)
| Pending.
Arguments Settles {E A} c.
Arguments Pending {E A}.

End Js.

(* ================================================================= *)
(** ** types.ts *)

(** Modelled from the spec: [types.ts] is imported by both sources but is
    not among them.  The rarity enum is the ordered enum of the data model
    (F < E < D < C < B < A < S < S+), with the member names the code uses
    ([PokemonRarity.S_PLUS]). *)
Module PokemonRarity.
Inductive t := F | E | D | C | B | A | S | S_PLUS.

Definition all : list t := [F; E; D; C; B; A; S; S_PLUS].

(** The string value of a member, as a template literal prints it. *)
Definition toString (r : t) : string :=
  match r with
  | F => "F" | E => "E" | D => "D" | C => "C"
  | B => "B" | A => "A" | S => "S" | S_PLUS => "S+"
  end.
End PokemonRarity.

(** Modelled from the spec: the status enum of [types.ts],
    [OWNED | RESOLD]. *)
Module PokemonStatus.
Inductive t := OWNED | RESOLD.

Definition eqb (x y : t) : bool :=
  match x, y with
  | OWNED, OWNED | RESOLD, RESOLD => true
  | _, _ => false
  end.
End PokemonStatus.

(** Modelled from the spec: the [Pokemon] interface of [types.ts], with the
    fields the object literal of [generatePokemon] fills in. *)
Module Pokemon.
Record t := mk {
  id : string;
  name : string;
  rarity : PokemonRarity.t;
  type : string;
  attack : Z;
  attackName : string;
  pv : Z;
  imageBase64 : string;
  generatedAt : string;
  status : PokemonStatus.t
}.

(** [{ ...p, status: s }]. *)
Definition withStatus (s : PokemonStatus.t) (p : t) : t :=
  mk (id p) (name p) (rarity p) (type p) (attack p) (attackName p) (pv p)
     (imageBase64 p) (generatedAt p) s.
End Pokemon.

(** Modelled from the spec: [AppMessage] of [types.ts], as [showMessage]
    builds it. *)
Module MessageType.
Inductive t := success | error | warning.
End MessageType.

Record AppMessage := mkMessage { msgType : MessageType.t; text : string }.

(** Modelled from the spec: [ApiErrorResponse] of [types.ts], the error
    body [{error:{code,message,timestamp}}]; the timestamp is only
    logged. *)
Record ApiError := mkApiError {
  code : option string;
  errMessage : option string
}.

(* ================================================================= *)
(** ** The remote endpoint as the client sees it *)

Module Remote.

(** [data.metadata] of a success body.  Every property may be absent;
    present properties have the JSON types of the endpoint's
    documentation. *)
Record Metadata := mkMetadata {
  md_id : option string;
  md_name : option string;
  md_rarity : option PokemonRarity.t;
  md_type : option string;
  md_attack : option Z;
  md_attackName : option string;
  md_pv : option Z
}.

(** A decoded JSON document, through the properties the client reads. *)
Record Body := mkBody {
  b_imageBase64 : option string;
  b_metadata : option Metadata;
  b_generatedAt : option string;
  b_error : option ApiError
}.

(** A [Response]: [res.ok], [res.status] and the outcome of
    [res.json()] on a body that comes to its end: it rejects on an
    undecodable body and yields [None] for the document [null].  A body
    that never comes to its end is the [Stalled] of [BodyStream]
    below. *)
Record Response := mkResponse {
  ok : bool;
  status : Z;
  json : Js.Completion Js.Error (option Body)
}.

(** How the request settles when it is left alone. *)
Inductive Settled :=
| Resolves (res : Response)
| Rejects (e : Js.Error).

(** The network: the time in milliseconds after which [fetch] settles
    ([None]: it never does), and how. *)
Record Network := mkNetwork {
  latency : option Z;
  settles : Settled
}.

(** Whether the body of a response, the head of which [fetch] resolved
    with, comes to its end.  On a [Complete] body [res.json()] settles as
    [json] says; on a [Stalled] one it never settles. *)
Inductive BodyStream :=
| Complete
| Stalled.

(** The same network, with the remote side supplying [type], [attack],
    [attackName] and [pv] of its own in the metadata it sends (or
    leaving them out, for [None]). *)
Definition supplyStats (t : option string) (a : option Z) (an : option string)
    (v : option Z) (net : Network) : Network :=
  mkNetwork (latency net)
    match settles net with
    | Resolves res =>
        Resolves
          (mkResponse (ok res) (status res)
             match json res with
             | Js.Return (Some d) =>
                 Js.Return
                   (Some (mkBody (b_imageBase64 d)
                            match b_metadata d with
                            | Some md =>
                                Some (mkMetadata (md_id md) (md_name md) (md_rarity md)
                                        t a an v)
                            | None => None
                            end
                            (b_generatedAt d) (b_error d)))
             | other => other
             end)
    | Rejects e => Rejects e
    end.

(** Four successive results of [Math.random()]. *)
Record Randoms := mkRandoms {
  rndType : Q;
  rndAttack : Q;
  rndAttackName : Q;
  rndPv : Q
}.

(** A result of [Math.random()]: at least 0, below 1. *)
Definition unitDraw (r : Q) : Prop := (0 <= r)%Q /\ (r < 1)%Q.

Definition unitDraws (rnd : Randoms) : Prop :=
  unitDraw (rndType rnd) /\ unitDraw (rndAttack rnd) /\
  unitDraw (rndAttackName rnd) /\ unitDraw (rndPv rnd).

End Remote.

(* ================================================================= *)
(** ** services/pokemonApiService.ts *)

Module PokemonApiService.
Import Js Remote.

Local Notation "x <- c ;; k" := (Js.bind c (fun x => k))
  (at level 61, c at next level, right associativity).

Definition API_BASE_URL : string := "https://epsi.journeesdecouverte.fr:22222/v1".
Definition AUTH_TOKEN : string := "EPSI".

(** Milliseconds. *)
Definition REQUEST_TIMEOUT : Z := 30000.

Definition POKEMON_TYPES : list string :=
  [ "Normal"; "Fire"; "Water"; "Grass"; "Electric"; "Ice"; "Fighting"; "Poison";
    "Ground"; "Flying"; "Psychic"; "Bug"; "Rock"; "Ghost"; "Dragon"; "Steel";
    "Dark"; "Fairy" ].

Definition POKEMON_ATTACKS : list string :=
  [ "Tackle"; "Scratch"; "Ember"; "Water Gun"; "Vine Whip"; "Thunder Shock";
    "Quick Attack"; "Bite"; "Growl"; "Tail Whip"; "Sand Attack"; "Confusion" ].

(** *** The request and its timer *)

(** [setTimeout(() => controller.abort(), REQUEST_TIMEOUT)] runs its
    callback unless [fetch] settled before, the point at which
    [clearTimeout] is reached. *)
Definition timerFires (net : Network) : bool :=
  match latency net with
  | Some t => negb (t <? REQUEST_TIMEOUT)
  | None => true
  end.

(** What [fetch] rejects with once its signal is aborted. *)
Definition abortError : Error :=
  mkError DOMExceptionC "AbortError" "signal is aborted without reason".

(** [await fetch(url, { ..., signal: controller.signal })]. *)
Definition fetch (net : Network) : Completion Error Response :=
  if timerFires net then Throw abortError
  else match settles net with
       | Resolves res => Return res
       | Rejects e => Throw e
       end.

(** *** The errors the client makes *)

Definition timeoutError : Error :=
  newError ("The Pokémon generation request timed out after "
            ++ numberToString (REQUEST_TIMEOUT / 1000)
            ++ " seconds. The API might be busy, please try again later.").

Definition connectError : Error :=
  newError ("Could not connect to the Pokémon API. This might be a network issue, the API server being down, or a self-signed HTTPS certificate. If the API uses a self-signed certificate, please try opening "
            ++ API_BASE_URL ++ "/generate"
            ++ " in a new browser tab and accepting the security warning, then refresh this page. Also, verify the API server has correct CORS configuration for your client application's origin.").

Definition formatError : Error :=
  newError "Invalid API response format received: missing expected fields (id, name, rarity, type, attack, attackName, pv, imageBase64, generatedAt).".

(** The replacement of an undecodable error body. *)
Definition unknownErrorBody (res : Response) : option Body :=
  Some (mkBody None None None
          (Some (mkApiError (Some "UNKNOWN_ERROR")
                   (Some ("HTTP error! Status: " ++ numberToString (status res)))))).

(** [errorData?.error?.message]. *)
Definition errorMessageOf (errorData : option Body) : option string :=
  match errorData with
  | Some d => match b_error d with
              | Some e => errMessage e
              | None => None
              end
  | None => None
  end.

(** The error thrown for a response that is not [ok]. *)
Definition httpError (res : Response) : Error :=
  let errorData := catchWith (json res) (unknownErrorBody res) in
  newError (orString (errorMessageOf errorData)
              ("Failed to generate Pokémon (HTTP " ++ numberToString (status res) ++ ")")).

(** *** The locally made statistics *)

Definition randomType (rnd : Randoms) : option string :=
  arrayGet POKEMON_TYPES (floorTimes (rndType rnd) (arrayLength POKEMON_TYPES)).

Definition randomAttack (rnd : Randoms) : Z :=
  floorTimes (rndAttack rnd) (100 - 10 + 1) + 10.

Definition randomAttackName (rnd : Randoms) : option string :=
  arrayGet POKEMON_ATTACKS (floorTimes (rndAttackName rnd) (arrayLength POKEMON_ATTACKS)).

Definition randomPv (rnd : Randoms) : Z :=
  floorTimes (rndPv rnd) (200 - 50 + 1) + 50.

(** [data.metadata.<prop> = v]: a [TypeError] when [data] is [null] or
    has no [metadata] to write to (the texts are those of V8). *)
Definition assignMetadata (prop : string) (upd : Metadata -> Metadata)
    (data : option Body) : Completion Error (option Body) :=
  match data with
  | None => Throw (newTypeError "Cannot read properties of null (reading 'metadata')")
  | Some d =>
      match b_metadata d with
      | None => Throw (newTypeError ("Cannot set properties of undefined (setting '"
                                       ++ prop ++ "')"))
      | Some md => Return (Some (mkBody (b_imageBase64 d) (Some (upd md))
                                   (b_generatedAt d) (b_error d)))
      end
  end.

Definition setType (v : option string) (md : Metadata) : Metadata :=
  mkMetadata (md_id md) (md_name md) (md_rarity md) v (md_attack md)
    (md_attackName md) (md_pv md).

Definition setAttack (v : option Z) (md : Metadata) : Metadata :=
  mkMetadata (md_id md) (md_name md) (md_rarity md) (md_type md) v
    (md_attackName md) (md_pv md).

Definition setAttackName (v : option string) (md : Metadata) : Metadata :=
  mkMetadata (md_id md) (md_name md) (md_rarity md) (md_type md) (md_attack md)
    v (md_pv md).

Definition setPv (v : option Z) (md : Metadata) : Metadata :=
  mkMetadata (md_id md) (md_name md) (md_rarity md) (md_type md) (md_attack md)
    (md_attackName md) v.

(** The four assignments, in the order of the source. *)
Definition mockStats (rnd : Randoms) (data : option Body)
  : Completion Error (option Body) :=
  data <- assignMetadata "type" (setType (randomType rnd)) data ;;
  data <- assignMetadata "attack" (setAttack (Some (randomAttack rnd))) data ;;
  data <- assignMetadata "attackName" (setAttackName (randomAttackName rnd)) data ;;
  assignMetadata "pv" (setPv (Some (randomPv rnd))) data.

(** *** Validation and the returned object *)

(** [data.metadata.<prop>] read through [data.metadata]. *)
Definition meta {A} (prop : Metadata -> option A) (d : Body) : option A :=
  match b_metadata d with
  | Some md => prop md
  | None => None
  end.

(** The condition of the validating [if]. *)
Definition missingFields (data : option Body) : bool :=
  match data with
  | None => true
  | Some d =>
      negb (truthyString (b_imageBase64 d))
      || negb (truthyObject (b_metadata d))
      || negb (truthyString (meta md_id d))
      || negb (truthyString (meta md_name d))
      || negb (truthyObject (meta md_rarity d))
      || negb (truthyString (meta md_type d))
      || negb (truthyNumber (meta md_attack d))
      || negb (truthyString (meta md_attackName d))
      || negb (truthyNumber (meta md_pv d))
      || negb (truthyString (b_generatedAt d))
  end.

(** A property read of a value the validation found present; the
    default stands for [undefined] and is not reached after it. *)
Definition present {A} (v : option A) (undefined : A) : A :=
  match v with
  | Some a => a
  | None => undefined
  end.

(** The object literal [pokemon]. *)
Definition toPokemon (d : Body) : Pokemon.t :=
  Pokemon.mk
    (present (meta md_id d) "")
    (present (meta md_name d) "")
    (present (meta md_rarity d) PokemonRarity.F)
    (present (meta md_type d) "")
    (present (meta md_attack d) 0)
    (present (meta md_attackName d) "")
    (present (meta md_pv d) 0)
    (present (b_imageBase64 d) "")
    (present (b_generatedAt d) "")
    PokemonStatus.OWNED.

Definition validate (data : option Body) : Completion Error Pokemon.t :=
  if missingFields data then Throw formatError
  else match data with
       | Some d => Return (toPokemon d)
       | None => Throw formatError
       end.

(** *** generatePokemon *)

(** The body of the [try]. *)
Definition tryBlock (net : Network) (rnd : Randoms) : Completion Error Pokemon.t :=
  res <- fetch net ;;
  if negb (ok res) then Throw (httpError res)
  else
    data <- json res ;;
    data <- mockStats rnd data ;;
    validate data.

(** The [catch] clause: every error of the [try] goes through it. *)
Definition catchBlock (e : Error) : Completion Error Pokemon.t :=
  if (name e =? "AbortError")%string then Throw timeoutError
  else if instanceofTypeError e && (message e =? "Failed to fetch")%string
       then Throw connectError
       else Throw e.

Definition generatePokemon (net : Network) (rnd : Randoms)
  : Completion Error Pokemon.t :=
  match tryBlock net rnd with
  | Return pokemon => Return pokemon
  | Throw e => catchBlock e
  end.

(** [generatePokemon()] under the [await] of its caller, over a body
    that may stall.  [clearTimeout(timeoutId)] runs as soon as [fetch]
    has resolved, before [res.json()] is awaited, on the branch of
    [!res.ok] as on the other: on a stalled body nothing aborts the
    read and the call stays pending.  A [fetch] that fails reads no
    body. *)
Definition generatePokemonAwaited (net : Network) (body : BodyStream) (rnd : Randoms)
  : Awaited Error Pokemon.t :=
  match fetch net, body with
  | Return _, Stalled => Pending
  | _, _ => Settles (generatePokemon net rnd)
  end.

End PokemonApiService.

(* ================================================================= *)
(** ** Array.prototype.sort *)

Module JsArray.
Section Sort.
Context {A : Type}.

(** The comparator [cmp a b] is negative when [a] goes first, positive
    when [b] does (a [NaN] result counts as [0] and is given as
    such). *)
Variable cmp : A -> A -> Z.

(** [x], which preceded every element of the sorted [l] in the input,
    goes before the first element it does not have to follow. *)
Fixpoint insert (x : A) (l : list A) : list A :=
  match l with
  | [] => [x]
  | y :: l' => if cmp x y <=? 0 then x :: y :: l' else y :: insert x l'
  end.

(** The stable sort: for a comparator that is consistent, the one
    result the language allows. *)
Definition sort (l : list A) : list A := fold_right insert [] l.
End Sort.
End JsArray.

(* ================================================================= *)
(** ** services/indexedDbService.ts *)

(** Modelled from the spec: [indexedDbService] is called by [App.tsx] but
    is not among the sources.  This is the Local Store of the
    specification under the names of the call sites: [getPokemons]
    returns the records in the order persisted, [addPokemon] fails with
    [DuplicateId] when the id exists, [updatePokemon] fails with
    [NotFound] when it does not and with [InvalidTransition] on a change
    from RESOLD back to OWNED, [updateTokenBalance] fails with
    [InvalidValue] on a negative amount; each call is atomic. *)
Module IndexedDbService.
Import Js.

Inductive StoreError := DuplicateId | NotFound | InvalidTransition | InvalidValue.

Record Db := mkDb {
  records : list Pokemon.t;
  amount : Z
}.

Definition sameId (i : string) (p : Pokemon.t) : bool := (Pokemon.id p =? i)%string.

Definition getPokemons (d : Db) : list Pokemon.t := records d.

Definition getTokenBalance (d : Db) : Z := amount d.

Definition addPokemon (p : Pokemon.t) (d : Db) : Completion StoreError Db :=
  if existsb (sameId (Pokemon.id p)) (records d) then Throw DuplicateId
  else Return (mkDb (records d ++ [p]) (amount d)).

Definition updatePokemon (p : Pokemon.t) (d : Db) : Completion StoreError Db :=
  match find (sameId (Pokemon.id p)) (records d) with
  | None => Throw NotFound
  | Some old =>
      if PokemonStatus.eqb (Pokemon.status old) PokemonStatus.RESOLD
         && PokemonStatus.eqb (Pokemon.status p) PokemonStatus.OWNED
      then Throw InvalidTransition
      else Return (mkDb (map (fun q => if sameId (Pokemon.id p) q then p else q)
                           (records d))
                     (amount d))
  end.

Definition updateTokenBalance (n : Z) (d : Db) : Completion StoreError Db :=
  if n <? 0 then Throw InvalidValue
  else Return (mkDb (records d) n).

(** The text of a store failure. *)
Definition errorText (e : StoreError) : string :=
  match e with
  | DuplicateId => "DuplicateId"
  | NotFound => "NotFound"
  | InvalidTransition => "InvalidTransition"
  | InvalidValue => "InvalidValue"
  end.

End IndexedDbService.

(* ================================================================= *)
(** ** App.tsx *)

Module App.
Import Js.

Definition GENERATION_COST : Z := 10.

Definition POKEMON_RESELL_VALUES (r : PokemonRarity.t) : Z :=
  match r with
  | PokemonRarity.F => 2
  | PokemonRarity.E => 3
  | PokemonRarity.D => 5
  | PokemonRarity.C => 8
  | PokemonRarity.B => 12
  | PokemonRarity.A => 18
  | PokemonRarity.S => 25
  | PokemonRarity.S_PLUS => 40
  end.

Definition RARITY_VALUES (r : PokemonRarity.t) : Z :=
  match r with
  | PokemonRarity.F => 0
  | PokemonRarity.E => 1
  | PokemonRarity.D => 2
  | PokemonRarity.C => 3
  | PokemonRarity.B => 4
  | PokemonRarity.A => 5
  | PokemonRarity.S => 6
  | PokemonRarity.S_PLUS => 7
  end.

Definition OWNED_POKEMON_SCORE : Z := 10.
Definition RESOLD_POKEMON_SCORE : Z := 2.

Inductive SortOrder := newestFirst | rarityAsc | rarityDesc.

(** What the confirm handler made by [handleResellConfirmation] closes
    over: its arguments and the state of the render that made it. *)
Record ResellClosure := mkClosure {
  c_pokemonId : string;
  c_resellPrice : Z;
  c_pokemons : list Pokemon.t;
  c_tokenBalance : Z;
  c_sortOrder : SortOrder
}.

Record ModalState := mkModal {
  isModalOpen : bool;
  modalTitle : string;
  modalOnConfirm : option ResellClosure;
  isModalConfirmLoading : bool;
  pokemonToResellId : option string
}.

(** The state of the component, and the database behind
    [indexedDbService]. *)
Record AppState := mkState {
  pokemons : list Pokemon.t;
  tokenBalance : Z;
  isGeneratingPokemon : bool;
  message : option AppMessage;
  sortOrder : SortOrder;
  modal : ModalState;
  db : IndexedDbService.Db
}.

(** A value caught by a handler: an error of the generation client or a
    failure of the store. *)
Inductive Thrown :=
| ApiError (e : Js.Error)
| StoreError (e : IndexedDbService.StoreError).

(** [error instanceof Error ? error.message : String(error)]. *)
Definition errorText (e : Thrown) : string :=
  match e with
  | ApiError e => Js.message e
  | StoreError e => IndexedDbService.errorText e
  end.

(** *** Handlers as state transformers that may throw *)

Definition M (A : Type) : Type := AppState -> AppState * Completion Thrown A.

Definition ret {A} (a : A) : M A := fun st => (st, Return a).

Definition bindM {A B} (m : M A) (k : A -> M B) : M B :=
  fun st =>
    match m st with
    | (st', Return a) => k a st'
    | (st', Throw e) => (st', Throw e)
    end.

Local Notation "x <- c ;; k" := (bindM c (fun x => k))
  (at level 61, c at next level, right associativity).
Local Notation "c ;; k" := (bindM c (fun _ => k))
  (at level 61, right associativity).

(** [try { body } catch (error) { handler } finally { cleanup }]. *)
Definition tryCatchFinally (body : M unit) (handler : Thrown -> M unit)
    (cleanup : M unit) : M unit :=
  fun st =>
    let (st1, r1) := body st in
    let (st2, r2) := match r1 with
                     | Return _ => (st1, r1)
                     | Throw e => handler e st1
                     end in
    match cleanup st2 with
    | (st3, Return _) => (st3, r2)
    | (st3, Throw e) => (st3, Throw e)
    end.

(** The state setters. *)
Definition setPokemons (f : list Pokemon.t -> list Pokemon.t) : M unit :=
  fun st => (mkState (f (pokemons st)) (tokenBalance st) (isGeneratingPokemon st)
               (message st) (sortOrder st) (modal st) (db st), Return tt).

Definition setTokenBalance (v : Z) : M unit :=
  fun st => (mkState (pokemons st) v (isGeneratingPokemon st)
               (message st) (sortOrder st) (modal st) (db st), Return tt).

Definition setIsGeneratingPokemon (v : bool) : M unit :=
  fun st => (mkState (pokemons st) (tokenBalance st) v
               (message st) (sortOrder st) (modal st) (db st), Return tt).

Definition setMessage (v : option AppMessage) : M unit :=
  fun st => (mkState (pokemons st) (tokenBalance st) (isGeneratingPokemon st)
               v (sortOrder st) (modal st) (db st), Return tt).

Definition setModal (f : ModalState -> ModalState) : M unit :=
  fun st => (mkState (pokemons st) (tokenBalance st) (isGeneratingPokemon st)
               (message st) (sortOrder st) (f (modal st)) (db st), Return tt).

Definition setPokemonToResellId (v : option string) : M unit :=
  setModal (fun m => mkModal (isModalOpen m) (modalTitle m) (modalOnConfirm m)
                       (isModalConfirmLoading m) v).

Definition setModalTitle (v : string) : M unit :=
  setModal (fun m => mkModal (isModalOpen m) v (modalOnConfirm m)
                       (isModalConfirmLoading m) (pokemonToResellId m)).

Definition setModalOnConfirm (v : option ResellClosure) : M unit :=
  setModal (fun m => mkModal (isModalOpen m) (modalTitle m) v
                       (isModalConfirmLoading m) (pokemonToResellId m)).

Definition setIsModalConfirmLoading (v : bool) : M unit :=
  setModal (fun m => mkModal (isModalOpen m) (modalTitle m) (modalOnConfirm m)
                       v (pokemonToResellId m)).

Definition setIsModalOpen (v : bool) : M unit :=
  setModal (fun m => mkModal v (modalTitle m) (modalOnConfirm m)
                       (isModalConfirmLoading m) (pokemonToResellId m)).

(** [showMessage(type, text)]; the timer that clears the message five
    seconds later is left out. *)
Definition showMessage (type : MessageType.t) (text : string) : M unit :=
  setMessage (Some (mkMessage type text)).

(** [await indexedDbService.<op>(...)]: the write is made in the
    database, or the failure of the store is thrown. *)
Definition indexedDb (op : IndexedDbService.Db -> Completion IndexedDbService.StoreError IndexedDbService.Db)
  : M unit :=
  fun st =>
    match op (db st) with
    | Return d => (mkState (pokemons st) (tokenBalance st) (isGeneratingPokemon st)
                     (message st) (sortOrder st) (modal st) d, Return tt)
    | Throw e => (st, Throw (StoreError e))
    end.

(** [await pokemonApiService.generatePokemon()]. *)
Definition pokemonApi (net : Remote.Network) (rnd : Remote.Randoms) : M Pokemon.t :=
  fun st =>
    match PokemonApiService.generatePokemon net rnd with
    | Return p => (st, Return p)
    | Throw e => (st, Throw (ApiError e))
    end.

Section WithDate.

(** [new Date(s).getTime()]: milliseconds, or [None] for [NaN]. *)
Variable getTime : string -> option Z.

(** The comparator of [sortPokemons]. *)
Definition comparePokemons (currentSortOrder : SortOrder) (a b : Pokemon.t) : Z :=
  match currentSortOrder with
  | newestFirst =>
      match getTime (Pokemon.generatedAt b), getTime (Pokemon.generatedAt a) with
      | Some tb, Some ta => tb - ta
      | _, _ => 0
      end
  | rarityAsc => RARITY_VALUES (Pokemon.rarity a) - RARITY_VALUES (Pokemon.rarity b)
  | rarityDesc => RARITY_VALUES (Pokemon.rarity b) - RARITY_VALUES (Pokemon.rarity a)
  end.

Definition sortPokemons (pokemonsArray : list Pokemon.t) (currentSortOrder : SortOrder)
  : list Pokemon.t :=
  JsArray.sort (comparePokemons currentSortOrder) pokemonsArray.

(** [pokedexScore]: the [forEach] over the collection. *)
Definition pokedexScore (pokemons : list Pokemon.t) : Z :=
  fold_left
    (fun score pokemon =>
       match Pokemon.status pokemon with
       | PokemonStatus.OWNED => score + OWNED_POKEMON_SCORE
       | PokemonStatus.RESOLD => score + RESOLD_POKEMON_SCORE
       end)
    pokemons 0.

(** *** handleGeneratePokemon *)

(** The body of the [try]; [originalTokenBalance] and [sortOrder] are
    the values the handler closed over. *)
Definition generateTry (originalTokenBalance : Z) (sortOrder : SortOrder)
    (net : Remote.Network) (rnd : Remote.Randoms) : M unit :=
  let newBalanceAfterDeduction := originalTokenBalance - GENERATION_COST in
  setTokenBalance newBalanceAfterDeduction ;;
  indexedDb (IndexedDbService.updateTokenBalance newBalanceAfterDeduction) ;;
  newPokemon <- pokemonApi net rnd ;;
  indexedDb (IndexedDbService.addPokemon newPokemon) ;;
  setPokemons (fun prevPokemons => sortPokemons (newPokemon :: prevPokemons) sortOrder) ;;
  showMessage MessageType.success
    ("Awesome! You generated a new Pokémon: " ++ Pokemon.name newPokemon
     ++ " (" ++ PokemonRarity.toString (Pokemon.rarity newPokemon)
     ++ ", " ++ Pokemon.type newPokemon ++ ")!").

(** The [catch] clause: the rollback. *)
Definition generateCatch (originalTokenBalance : Z) (error : Thrown) : M unit :=
  let revertedBalance := originalTokenBalance in
  setTokenBalance revertedBalance ;;
  indexedDb (IndexedDbService.updateTokenBalance revertedBalance) ;;
  showMessage MessageType.error
    ("Failed to generate Pokémon: " ++ errorText error ++ ". Tokens refunded.").

Definition handleGeneratePokemon (net : Remote.Network) (rnd : Remote.Randoms)
  : M unit :=
  fun st =>
    if tokenBalance st <? GENERATION_COST then
      showMessage MessageType.warning
        ("You need " ++ numberToString GENERATION_COST
         ++ " tokens to generate a Pokémon. Current balance: "
         ++ numberToString (tokenBalance st) ++ ".") st
    else
      (setIsGeneratingPokemon true ;;
       let originalTokenBalance := tokenBalance st in
       tryCatchFinally
         (generateTry originalTokenBalance (sortOrder st) net rnd)
         (generateCatch originalTokenBalance)
         (setIsGeneratingPokemon false)) st.

(** A run of a handler: it came to its end, or it is suspended at an
    [await] that never resumes, in the state reached there. *)
Inductive Run :=
| Finished (st : AppState) (c : Completion Thrown unit)
| Suspended (st : AppState).

Definition reached (r : Run) : AppState :=
  match r with
  | Finished st _ => st
  | Suspended st => st
  end.

Definition finished (r : AppState * Completion Thrown unit) : Run :=
  Finished (fst r) (snd r).

(** The statements of [handleGeneratePokemon], once the balance check
    is passed, up to [await pokemonApiService.generatePokemon()]. *)
Definition generateUpToCall (originalTokenBalance : Z) : M unit :=
  setIsGeneratingPokemon true ;;
  let newBalanceAfterDeduction := originalTokenBalance - GENERATION_COST in
  setTokenBalance newBalanceAfterDeduction ;;
  indexedDb (IndexedDbService.updateTokenBalance newBalanceAfterDeduction).

(** [handleGeneratePokemon] over a body that may stall: when the
    statements before the call go through and the call stays pending,
    the handler is suspended there, and neither the [catch] nor the
    [finally] runs; in every other case it is the handler above. *)
Definition handleGeneratePokemonRun (net : Remote.Network) (body : Remote.BodyStream)
    (rnd : Remote.Randoms) (st : AppState) : Run :=
  if tokenBalance st <? GENERATION_COST then
    finished (handleGeneratePokemon net rnd st)
  else
    match generateUpToCall (tokenBalance st) st,
          PokemonApiService.generatePokemonAwaited net body rnd with
    | (st1, Return _), Pending => Suspended st1
    | _, _ => finished (handleGeneratePokemon net rnd st)
    end.

(** *** Resell *)

Definition closeModal : M unit :=
  setIsModalOpen false ;;
  setPokemonToResellId None ;;
  setModalTitle "" ;;
  setModalOnConfirm None ;;
  setIsModalConfirmLoading false.

(** The body of the [try] of the confirm handler. *)
Definition resellTry (c : ResellClosure) : M unit :=
  match find (fun p => (Pokemon.id p =? c_pokemonId c)%string) (c_pokemons c) with
  | Some pokemonToResell =>
      let updatedPokemon := Pokemon.withStatus PokemonStatus.RESOLD pokemonToResell in
      indexedDb (IndexedDbService.updatePokemon updatedPokemon) ;;
      let newBalance := c_tokenBalance c + c_resellPrice c in
      indexedDb (IndexedDbService.updateTokenBalance newBalance) ;;
      setPokemons (fun prevPokemons =>
        sortPokemons
          (map (fun p => if (Pokemon.id p =? Pokemon.id updatedPokemon)%string
                         then updatedPokemon else p)
             prevPokemons)
          (c_sortOrder c)) ;;
      setTokenBalance newBalance ;;
      showMessage MessageType.success
        (Pokemon.name pokemonToResell ++ " resold successfully! You gained "
         ++ numberToString (c_resellPrice c) ++ " tokens.")
  | None => ret tt
  end.

(** The function given to [setModalOnConfirm]. *)
Definition resellOnConfirm (c : ResellClosure) : M unit :=
  setIsModalConfirmLoading true ;;
  tryCatchFinally
    (resellTry c)
    (fun error =>
       showMessage MessageType.error ("Failed to resell Pokémon: " ++ errorText error))
    (setIsModalConfirmLoading false ;; closeModal).

Definition handleResellConfirmation (pokemonId pokemonName : string)
    (pokemonRarity : PokemonRarity.t) : M unit :=
  fun st =>
    (setPokemonToResellId (Some pokemonId) ;;
     setModalTitle "Resell Pokémon" ;;
     let resellPrice := POKEMON_RESELL_VALUES pokemonRarity in
     setModalOnConfirm
       (Some (mkClosure pokemonId resellPrice (pokemons st) (tokenBalance st)
                (sortOrder st))) ;;
     setIsModalOpen true) st.

(** Modelled from the spec: [components/Modal] is not among the
    sources.  The resell flow of the specification goes on once the
    confirmation is given: the confirm button of the open modal runs the
    [onConfirm] it was given. *)
Definition confirmModal : M unit :=
  fun st =>
    match isModalOpen (modal st), modalOnConfirm (modal st) with
    | true, Some c => resellOnConfirm c st
    | _, _ => (st, Return tt)
    end.

(** The resell flow of one user action: the confirmation is asked
    for, then given. *)
Definition resell (pokemonId pokemonName : string) (pokemonRarity : PokemonRarity.t)
  : M unit :=
  handleResellConfirmation pokemonId pokemonName pokemonRarity ;;
  confirmModal.

(** The collection view offers the resell button on the cards of
    OWNED records; the other cards show the text Resold. *)
Definition resellButton (pokemon : Pokemon.t) : option (M unit) :=
  match Pokemon.status pokemon with
  | PokemonStatus.OWNED =>
      Some (handleResellConfirmation (Pokemon.id pokemon) (Pokemon.name pokemon)
              (Pokemon.rarity pokemon))
  | PokemonStatus.RESOLD => None
  end.

End WithDate.
End App.

(* ================================================================= *)
(** ** Sample inputs *)

Module Samples.
Import Js Remote.

(** The success body of the endpoint's documentation. *)
Definition voltadracoMetadata : Metadata :=
  mkMetadata (Some "pkm_01HYQWQ6V1E3P9QM3G7F1QX3B3") (Some "Voltadraco")
    (Some PokemonRarity.A) (Some "Electric") (Some 75) (Some "Thunder Shock")
    (Some 120).

Definition voltadracoBody : Body :=
  mkBody (Some "iVBORw0KGgoAAAANSUhEUgAA") (Some voltadracoMetadata)
    (Some "2025-11-12T09:15:27Z") None.

Definition okResponse (b : option Body) : Response := mkResponse true 200 (Return b).

Definition errorResponse (st : Z) (m : string) : Response :=
  mkResponse false st
    (Return (Some (mkBody None None None
                     (Some (mkApiError (Some "GENERATION_FAILED") (Some m)))))).

(** A request answered after 120 ms. *)
Definition answers (res : Response) : Network := mkNetwork (Some 120) (Resolves res).

(** A request that is never answered. *)
Definition silent : Network := mkNetwork None (Resolves (okResponse (Some voltadracoBody))).

(** A request the browser could not make. *)
Definition unreachable : Network :=
  mkNetwork (Some 15) (Rejects (newTypeError "Failed to fetch")).

(** A success body without [metadata]. *)
Definition bareBody : Body :=
  mkBody (Some "iVBORw0KGgoAAAANSUhEUgAA") None (Some "2025-11-12T09:15:27Z") None.

(** A success body whose [metadata] has no [id]. *)
Definition anonymousBody : Body :=
  mkBody (Some "iVBORw0KGgoAAAANSUhEUgAA")
    (Some (mkMetadata None (Some "Voltadraco") (Some PokemonRarity.A) None None None None))
    (Some "2025-11-12T09:15:27Z") None.

Definition draws : Randoms := mkRandoms (1 # 2) (0 # 1) (99 # 100) (1 # 3).

(** What the client returns for the documented body under [draws]. *)
Definition voltadraco : Pokemon.t :=
  Pokemon.mk "pkm_01HYQWQ6V1E3P9QM3G7F1QX3B3" "Voltadraco" PokemonRarity.A
    "Flying" 10 "Confusion" 100 "iVBORw0KGgoAAAANSUhEUgAA" "2025-11-12T09:15:27Z"
    PokemonStatus.OWNED.

(** The error message of the endpoint's documentation. *)
Definition generationFailed : string :=
  "Une erreur est survenue lors de la génération du Pokémon.".
End Samples.

(* ================================================================= *)
(** ** Properties of the generation client *)

Module PokemonApiServiceSpec.
Import Js Remote PokemonApiService.

(** *** Ranges of the draws *)

Lemma floorTimes_range (r : Q) (n : Z) :
  unitDraw r -> 0 < n -> 0 <= floorTimes r n < n.
Proof.
  intros [Hlo Hhi] Hn. unfold floorTimes.
  assert (Hpos : (0 < inject_Z n)%Q) by (rewrite (Zlt_Qlt 0 n) in Hn; exact Hn).
  split.
  - replace 0 with (Qfloor (inject_Z 0)) by apply Qfloor_Z.
    apply Qfloor_resp_le. change (inject_Z 0) with 0%Q.
    apply Qmult_le_0_compat; [exact Hlo | apply Qlt_le_weak; exact Hpos].
  - assert (Hlt : (r * inject_Z n < inject_Z n)%Q).
    { rewrite <- (Qmult_1_l (inject_Z n)) at 2.
      apply Qmult_lt_compat_r; assumption. }
    pose proof (Qfloor_le (r * inject_Z n)) as Hfl.
    pose proof (Qle_lt_trans _ _ _ Hfl Hlt) as Hz.
    rewrite Zlt_Qlt. exact Hz.
Qed.

Lemma arrayGet_in {A} (arr : list A) (i : Z) :
  0 <= i < arrayLength arr -> exists x, arrayGet arr i = Some x /\ In x arr.
Proof.
  intros [Hlo Hhi]. unfold arrayGet, arrayLength in *.
  destruct (i <? 0) eqn:Hneg; [apply Z.ltb_lt in Hneg; lia |].
  destruct (nth_error arr (Z.to_nat i)) as [x |] eqn:Hnth.
  - exists x. split; [reflexivity | eapply nth_error_In; exact Hnth].
  - apply nth_error_None in Hnth. lia.
Qed.

Lemma randomType_in (rnd : Randoms) :
  unitDraw (rndType rnd) -> exists t, randomType rnd = Some t /\ In t POKEMON_TYPES.
Proof.
  intros H. apply arrayGet_in. apply floorTimes_range; [exact H | reflexivity].
Qed.

Lemma randomAttackName_in (rnd : Randoms) :
  unitDraw (rndAttackName rnd) ->
  exists t, randomAttackName rnd = Some t /\ In t POKEMON_ATTACKS.
Proof.
  intros H. apply arrayGet_in. apply floorTimes_range; [exact H | reflexivity].
Qed.

Lemma randomAttack_range (rnd : Randoms) :
  unitDraw (rndAttack rnd) -> 10 <= randomAttack rnd <= 100.
Proof.
  intros H. unfold randomAttack.
  pose proof (floorTimes_range _ (100 - 10 + 1) H eq_refl). lia.
Qed.

Lemma randomPv_range (rnd : Randoms) :
  unitDraw (rndPv rnd) -> 50 <= randomPv rnd <= 200.
Proof.
  intros H. unfold randomPv.
  pose proof (floorTimes_range _ (200 - 50 + 1) H eq_refl). lia.
Qed.

(** *** The shape of a run *)

(** The document after the four assignments, when it has a [metadata]
    object to assign to. *)
Definition mocked (rnd : Randoms) (d : Body) (md : Metadata) : Body :=
  mkBody (b_imageBase64 d)
    (Some (mkMetadata (md_id md) (md_name md) (md_rarity md) (randomType rnd)
             (Some (randomAttack rnd)) (randomAttackName rnd) (Some (randomPv rnd))))
    (b_generatedAt d) (b_error d).

Lemma mockStats_object (rnd : Randoms) (d : Body) (md : Metadata) :
  b_metadata d = Some md -> mockStats rnd (Some d) = Return (Some (mocked rnd d md)).
Proof.
  intros H. unfold mockStats, assignMetadata, mocked. rewrite H. reflexivity.
Qed.

Lemma mockStats_bare (rnd : Randoms) (d : Body) :
  b_metadata d = None ->
  mockStats rnd (Some d)
  = Throw (newTypeError "Cannot set properties of undefined (setting 'type')").
Proof.
  intros H. unfold mockStats, assignMetadata. rewrite H. reflexivity.
Qed.

Lemma mockStats_null (rnd : Randoms) :
  mockStats rnd None
  = Throw (newTypeError "Cannot read properties of null (reading 'metadata')").
Proof. reflexivity. Qed.

Lemma catchBlock_throws (e : Error) : exists e', catchBlock e = Throw e'.
Proof.
  unfold catchBlock.
  destruct (name e =? "AbortError")%string; [eexists; reflexivity |].
  destruct (instanceofTypeError e && (message e =? "Failed to fetch")%string);
    eexists; reflexivity.
Qed.

(** A run returns a Pokémon only along one path: the request settled
    with an [ok] response before the timer, its body decoded to a
    document with a [metadata] object, and the validation passed on the
    document after the assignments. *)
Lemma generatePokemon_Return_inv (net : Network) (rnd : Randoms) (p : Pokemon.t) :
  generatePokemon net rnd = Return p ->
  exists res d md,
    fetch net = Return res /\ ok res = true /\ json res = Return (Some d) /\
    b_metadata d = Some md /\
    missingFields (Some (mocked rnd d md)) = false /\
    p = toPokemon (mocked rnd d md).
Proof.
  unfold generatePokemon, tryBlock. intros H.
  destruct (fetch net) as [res | e] eqn:Hfetch; simpl in H.
  2:{ destruct (catchBlock_throws e) as [e' He']. rewrite He' in H. discriminate. }
  destruct (ok res) eqn:Hok; simpl in H.
  2:{ destruct (catchBlock_throws (httpError res)) as [e' He'].
      rewrite He' in H. discriminate. }
  destruct (json res) as [[d |] | e] eqn:Hjson; simpl in H.
  - destruct (b_metadata d) as [md |] eqn:Hmd.
    + rewrite (mockStats_object rnd d md Hmd) in H. simpl in H.
      unfold validate in H.
      destruct (missingFields (Some (mocked rnd d md))) eqn:Hmiss.
      * simpl in H. destruct (catchBlock_throws formatError) as [e' He'].
        rewrite He' in H. discriminate.
      * exists res, d, md. repeat split; try assumption; try reflexivity.
        inversion H. reflexivity.
    + rewrite (mockStats_bare rnd d Hmd) in H. simpl in H. discriminate.
  - discriminate.
  - destruct (catchBlock_throws e) as [e' He']. rewrite He' in H. discriminate.
Qed.

(** What the remote side supplied for the four statistics does not
    reach the document the client goes on with. *)
Lemma mockStats_supplied (rnd : Randoms) (d : Body) (t : option string) (a : option Z)
    (an : option string) (v : option Z) :
  mockStats rnd
    (Some (mkBody (b_imageBase64 d)
             match b_metadata d with
             | Some md => Some (mkMetadata (md_id md) (md_name md) (md_rarity md) t a an v)
             | None => None
             end
             (b_generatedAt d) (b_error d)))
  = mockStats rnd (Some d).
Proof.
  destruct (b_metadata d) as [md |] eqn:Hmd.
  - rewrite (mockStats_object rnd d md Hmd).
    unfold mockStats, assignMetadata. reflexivity.
  - rewrite (mockStats_bare rnd d Hmd). reflexivity.
Qed.

Lemma generatePokemon_supplyStats (net : Network) (rnd : Randoms) (t : option string)
    (a : option Z) (an : option string) (v : option Z) :
  generatePokemon (supplyStats t a an v net) rnd = generatePokemon net rnd.
Proof.
  unfold generatePokemon, tryBlock, fetch, timerFires, supplyStats. simpl.
  destruct (latency net) as [ms |]; [destruct (ms <? REQUEST_TIMEOUT) |];
    simpl; try reflexivity.
  destruct (settles net) as [res | e]; simpl; [| reflexivity].
  destruct (ok res) eqn:Hok; simpl.
  - destruct (json res) as [[d |] | e]; simpl; try reflexivity.
    rewrite mockStats_supplied. reflexivity.
  - unfold httpError. simpl.
    destruct (json res) as [[d |] | e]; simpl; reflexivity.
Qed.

(** *** The conditions a call can meet *)

(** [s.includes(sub)]. *)
Definition includes (sub s : string) : bool :=
  match index 0 sub s with
  | Some _ => true
  | None => false
  end.

(** The request has not settled when the timer expires. *)
Definition timesOut (net : Network) : Prop :=
  forall t, latency net = Some t -> REQUEST_TIMEOUT <= t.

(** The request settles before the timer expires, with [s]. *)
Definition settlesInTime (net : Network) (s : Settled) : Prop :=
  exists t, latency net = Some t /\ t < REQUEST_TIMEOUT /\ settles net = s.

(** The browser could not connect. *)
Definition connectionFails (net : Network) : Prop :=
  settlesInTime net (Rejects (newTypeError "Failed to fetch")).

(** The remote side reports an error, with the message [m]. *)
Definition reportsError (net : Network) (m : string) : Prop :=
  exists res d e,
    settlesInTime net (Resolves res) /\ ok res = false /\
    json res = Return (Some d) /\ b_error d = Some e /\
    errMessage e = Some m /\ m <> "".

(** The remote side answers [ok] with a document that has a [metadata]
    object but lacks one of the properties it has to supply. *)
Definition malformed (net : Network) : Prop :=
  exists res d md,
    settlesInTime net (Resolves res) /\ ok res = true /\
    json res = Return (Some d) /\ b_metadata d = Some md /\
    (truthyString (b_imageBase64 d) = false \/ truthyString (md_id md) = false \/
     truthyString (md_name md) = false \/ truthyObject (md_rarity md) = false \/
     truthyString (b_generatedAt d) = false).

(** Settles a [settlesInTime] goal on a concrete network. *)
Ltac in_time :=
  eexists; split; [reflexivity | split; [reflexivity | reflexivity]].

Lemma fetch_timesOut (net : Network) :
  timesOut net -> timerFires net = true /\ fetch net = Throw abortError.
Proof.
  intros H. unfold fetch, timerFires. unfold timesOut in H.
  destruct (latency net) as [t |]; [| split; reflexivity].
  specialize (H t eq_refl).
  assert (Ht : (t <? REQUEST_TIMEOUT) = false) by (apply Z.ltb_ge; exact H).
  rewrite Ht. split; reflexivity.
Qed.

Lemma fetch_settlesInTime (net : Network) (s : Settled) :
  settlesInTime net s ->
  timerFires net = false /\
  fetch net = match s with Resolves res => Return res | Rejects e => Throw e end.
Proof.
  intros (t & Hl & Ht & Hs). unfold fetch, timerFires. rewrite Hl, Hs.
  apply Z.ltb_lt in Ht. rewrite Ht. split; reflexivity.
Qed.

Lemma generatePokemon_timesOut (net : Network) (rnd : Randoms) :
  timesOut net -> generatePokemon net rnd = Throw timeoutError.
Proof.
  intros H. destruct (fetch_timesOut net H) as [_ Hf].
  unfold generatePokemon, tryBlock. rewrite Hf. reflexivity.
Qed.

Lemma generatePokemon_connectionFails (net : Network) (rnd : Randoms) :
  connectionFails net -> generatePokemon net rnd = Throw connectError.
Proof.
  intros H. destruct (fetch_settlesInTime net _ H) as [_ Hf].
  unfold generatePokemon, tryBlock. rewrite Hf. reflexivity.
Qed.

Lemma newError_passes_catch (m : string) : catchBlock (newError m) = Throw (newError m).
Proof. reflexivity. Qed.

Lemma generatePokemon_reportsError (net : Network) (rnd : Randoms) (m : string) :
  reportsError net m -> generatePokemon net rnd = Throw (newError m).
Proof.
  intros (res & d & e & Hs & Hok & Hj & He & Hm & Hne).
  destruct (fetch_settlesInTime net _ Hs) as [_ Hf].
  unfold generatePokemon, tryBlock. rewrite Hf. simpl. rewrite Hok. simpl.
  unfold httpError. rewrite Hj. simpl. rewrite He, Hm. simpl.
  destruct (m =? "")%string eqn:Hem.
  - apply String.eqb_eq in Hem. contradiction.
  - apply newError_passes_catch.
Qed.

(** A document with a [metadata] object and a required property
    missing is refused by the validation, whatever the draws. *)
Lemma missingFields_mocked (rnd : Randoms) (d : Body) (md : Metadata) :
  truthyString (b_imageBase64 d) = false \/ truthyString (md_id md) = false \/
  truthyString (md_name md) = false \/ truthyObject (md_rarity md) = false \/
  truthyString (b_generatedAt d) = false ->
  missingFields (Some (mocked rnd d md)) = true.
Proof.
  unfold missingFields, mocked, meta. simpl.
  intros [H | [H | [H | [H | H]]]]; rewrite H; simpl;
    repeat (rewrite ?orb_true_r, ?orb_true_l; simpl); reflexivity.
Qed.

Lemma generatePokemon_malformed (net : Network) (rnd : Randoms) :
  malformed net -> generatePokemon net rnd = Throw formatError.
Proof.
  intros (res & d & md & Hs & Hok & Hj & Hmd & Hmiss).
  destruct (fetch_settlesInTime net _ Hs) as [_ Hf].
  unfold generatePokemon, tryBlock. rewrite Hf. simpl. rewrite Hok. simpl.
  rewrite Hj. simpl. rewrite (mockStats_object rnd d md Hmd). simpl.
  unfold validate. rewrite (missingFields_mocked rnd d md Hmiss). reflexivity.
Qed.

(** *** The returned statistics *)

(** X2: with draws of [Math.random()], a returned Pokémon has a type of the
    18 of [POKEMON_TYPES], an attack from 10 to 100, an attack name of
    [POKEMON_ATTACKS] and from 50 to 200 PV. *)
Lemma generated_stats_in_range (net : Network) (rnd : Randoms) (p : Pokemon.t) :
  unitDraws rnd ->
  generatePokemon net rnd = Return p ->
  List.length POKEMON_TYPES = 18%nat /\
  In (Pokemon.type p) POKEMON_TYPES /\
  10 <= Pokemon.attack p <= 100 /\
  In (Pokemon.attackName p) POKEMON_ATTACKS /\
  50 <= Pokemon.pv p <= 200 /\
  Pokemon.status p = PokemonStatus.OWNED.
Proof.
  intros (Ht & Ha & Hn & Hp) H.
  apply generatePokemon_Return_inv in H.
  destruct H as (res & d & md & _ & _ & _ & _ & _ & ->).
  destruct (randomType_in rnd Ht) as (t & Het & Hint).
  destruct (randomAttackName_in rnd Hn) as (n & Hen & Hinn).
  unfold toPokemon, mocked, meta. simpl. rewrite Het, Hen. simpl.
  repeat split; try assumption; try reflexivity;
    try apply (randomAttack_range rnd Ha); apply (randomPv_range rnd Hp).
Qed.

(** C10: the type, attack, attack name and PV of every Pokémon the
    client returns are the values it drew locally, and the call returns
    the same Pokémon whatever the remote response supplied for these
    four properties. *)
Theorem returned_stats_are_the_local_draws
    (net : Network) (rnd : Randoms) (p : Pokemon.t) :
  generatePokemon net rnd = Return p ->
  randomType rnd = Some (Pokemon.type p) /\
  Pokemon.attack p = randomAttack rnd /\
  randomAttackName rnd = Some (Pokemon.attackName p) /\
  Pokemon.pv p = randomPv rnd /\
  forall t a an v, generatePokemon (supplyStats t a an v net) rnd = Return p.
Proof.
  intros H.
  assert (Hs : forall t a an v, generatePokemon (supplyStats t a an v net) rnd = Return p)
    by (intros t a an v; rewrite generatePokemon_supplyStats; exact H).
  apply generatePokemon_Return_inv in H.
  destruct H as (res & d & md & _ & _ & _ & _ & Hmiss & Hp).
  unfold missingFields, mocked, meta in Hmiss. simpl in Hmiss.
  repeat (apply orb_false_elim in Hmiss; destruct Hmiss as [Hmiss ?]).
  repeat split; try exact Hs; rewrite Hp; unfold toPokemon, mocked, meta; simpl;
    try reflexivity.
  - destruct (randomType rnd) as [t |]; [reflexivity | discriminate].
  - destruct (randomAttackName rnd) as [n |]; [reflexivity | discriminate].
Qed.

Lemma returned_stats_are_the_local_draws_witness :
  randomType Samples.draws = Some "Flying" /\
  10 = randomAttack Samples.draws /\
  randomAttackName Samples.draws = Some "Confusion" /\
  100 = randomPv Samples.draws /\
  forall t a an v,
    generatePokemon
      (supplyStats t a an v (Samples.answers (Samples.okResponse (Some Samples.voltadracoBody))))
      Samples.draws
    = Return Samples.voltadraco.
Proof.
  apply (returned_stats_are_the_local_draws
           (Samples.answers (Samples.okResponse (Some Samples.voltadracoBody)))
           Samples.draws Samples.voltadraco).
  vm_compute. reflexivity.
Defined.

(** *** Validation *)

(** C5: a success response whose document has no [metadata] lacks the
    required fields id, name and rarity, and the validation, were it
    reached, would refuse it; the call fails before, with the
    [TypeError] of the first assignment to [data.metadata], and not
    with the error of the validation. *)
Theorem missing_metadata_fails_before_validation (rnd : Randoms) :
  missingFields (Some Samples.bareBody) = true /\
  generatePokemon (Samples.answers (Samples.okResponse (Some Samples.bareBody))) rnd
  = Throw (newTypeError "Cannot set properties of undefined (setting 'type')") /\
  generatePokemon (Samples.answers (Samples.okResponse (Some Samples.bareBody))) rnd
  <> Throw formatError.
Proof.
  split; [reflexivity |].
  assert (H : generatePokemon (Samples.answers (Samples.okResponse (Some Samples.bareBody))) rnd
              = Throw (newTypeError "Cannot set properties of undefined (setting 'type')"))
    by reflexivity.
  split; [exact H |]. rewrite H. intros Heq. discriminate Heq.
Qed.

(** *** Failures *)

Lemma client_errors_distinct :
  timeoutError <> connectError /\ timeoutError <> formatError /\
  connectError <> formatError.
Proof.
  repeat split; intros H;
    apply (f_equal (fun e => get 0 (message e))) in H; vm_compute in H; discriminate.
Qed.

(** C6, as stated, does not hold: a remote error whose message repeats
    the text of the timeout error is the same result as a timeout. *)
Lemma remote_error_can_repeat_the_timeout_text :
  ~ (forall (netT netR : Network) (rnd : Randoms) (m : string),
        timesOut netT -> reportsError netR m ->
        generatePokemon netT rnd <> generatePokemon netR rnd).
Proof.
  intros H.
  apply (H Samples.silent
           (Samples.answers (Samples.errorResponse 500 (message timeoutError)))
           Samples.draws (message timeoutError)).
  - intros t Ht. discriminate Ht.
  - eexists _, _, _. split; [in_time |].
    do 4 (split; [reflexivity |]).
    intros Hm. vm_compute in Hm. discriminate Hm.
  - vm_compute. reflexivity.
Qed.

(** C6 (amended): the timeout is of 30 000 ms; on expiry the request
    in flight is aborted and the call fails with the timeout error,
    whose text says 30 seconds, whatever the body of the response would
    have done; a connection failure fails with the connection error,
    whose text points at a self-signed certificate and at the CORS
    configuration; a malformed document fails with the format error; a
    remote error fails with an error carrying the remote message.  The
    three errors of the client are pairwise distinct, and the remote one
    is a result distinct from them as long as its message is not one of
    their texts. *)
Theorem failures_are_told_apart_by_message
    (netT netC netM netR : Network) (rnd : Randoms) (m : string) :
  timesOut netT -> connectionFails netC -> malformed netM -> reportsError netR m ->
  REQUEST_TIMEOUT = 30 * 1000 /\
  timerFires netT = true /\
  generatePokemon netT rnd = Throw timeoutError /\
  (forall body, generatePokemonAwaited netT body rnd = Settles (Throw timeoutError)) /\
  includes "timed out after 30 seconds" (message timeoutError) = true /\
  generatePokemon netC rnd = Throw connectError /\
  includes "self-signed HTTPS certificate" (message connectError) = true /\
  includes "CORS configuration" (message connectError) = true /\
  generatePokemon netM rnd = Throw formatError /\
  generatePokemon netR rnd = Throw (newError m) /\
  timeoutError <> connectError /\ timeoutError <> formatError /\
  connectError <> formatError /\
  (~ In m [message timeoutError; message connectError; message formatError] ->
   generatePokemon netR rnd <> generatePokemon netT rnd /\
   generatePokemon netR rnd <> generatePokemon netC rnd /\
   generatePokemon netR rnd <> generatePokemon netM rnd).
Proof.
  intros HT HC HM HR.
  assert (HA : forall body,
             generatePokemonAwaited netT body rnd = Settles (Throw timeoutError)).
  { intros body. unfold generatePokemonAwaited.
    rewrite (proj2 (fetch_timesOut netT HT)), (generatePokemon_timesOut netT rnd HT).
    reflexivity. }
  rewrite (generatePokemon_timesOut netT rnd HT),
    (generatePokemon_connectionFails netC rnd HC),
    (generatePokemon_malformed netM rnd HM),
    (generatePokemon_reportsError netR rnd m HR).
  destruct client_errors_distinct as (Htc & Htf & Hcf).
  split; [reflexivity |].
  split; [apply (fetch_timesOut netT HT) |].
  split; [reflexivity |].
  split; [exact HA |].
  split; [vm_compute; reflexivity |].
  split; [reflexivity |].
  split; [vm_compute; reflexivity |].
  split; [vm_compute; reflexivity |].
  split; [reflexivity |].
  split; [reflexivity |].
  split; [exact Htc |]. split; [exact Htf |]. split; [exact Hcf |].
  intros Hm. repeat split; intros Heq; apply Hm;
    injection Heq as Heq; rewrite Heq; simpl; tauto.
Qed.

Lemma failures_are_told_apart_by_message_witness :
  generatePokemon Samples.silent Samples.draws = Throw timeoutError /\
  generatePokemon Samples.unreachable Samples.draws = Throw connectError /\
  generatePokemon (Samples.answers (Samples.okResponse (Some Samples.anonymousBody)))
    Samples.draws = Throw formatError /\
  generatePokemon (Samples.answers (Samples.errorResponse 500 Samples.generationFailed))
    Samples.draws = Throw (newError Samples.generationFailed).
Proof.
  assert (HT : timesOut Samples.silent) by (intros t Ht; discriminate Ht).
  assert (HC : connectionFails Samples.unreachable) by in_time.
  assert (HM : malformed (Samples.answers (Samples.okResponse (Some Samples.anonymousBody)))).
  { eexists _, _, _. split; [in_time |].
    do 3 (split; [reflexivity |]).
    right. left. reflexivity. }
  assert (HR : reportsError
                 (Samples.answers (Samples.errorResponse 500 Samples.generationFailed))
                 Samples.generationFailed).
  { eexists _, _, _. split; [in_time |].
    do 4 (split; [reflexivity |]).
    intros Hm. vm_compute in Hm. discriminate Hm. }
  destruct (failures_are_told_apart_by_message _ _ _ _ Samples.draws _ HT HC HM HR)
    as (_ & _ & H1 & _ & _ & H2 & _ & _ & H3 & H4 & _).
  repeat split; assumption.
Defined.

End PokemonApiServiceSpec.


(* ================================================================= *)
(** ** Properties of the sort *)

Module JsArraySpec.
Import JsArray.

Section AnyComparator.
Context {A : Type}.
Variable cmp : A -> A -> Z.

Lemma insert_perm (x : A) (l : list A) : Permutation (insert cmp x l) (x :: l).
Proof.
  induction l as [| y l IH]; simpl.
  - apply Permutation_refl.
  - destruct (cmp x y <=? 0).
    + apply Permutation_refl.
    + apply perm_trans with (y :: x :: l).
      * apply perm_skip. exact IH.
      * apply perm_swap.
Qed.

(** The sort rearranges its input: nothing is lost, added or changed. *)
Lemma sort_perm (l : list A) : Permutation (sort cmp l) l.
Proof.
  induction l as [| x l IH]; simpl.
  - apply perm_nil.
  - apply perm_trans with (x :: sort cmp l).
    + apply insert_perm.
    + apply perm_skip. exact IH.
Qed.

Lemma sort_In (l : list A) (x : A) : In x (sort cmp l) <-> In x l.
Proof.
  split; apply Permutation_in; [| apply Permutation_sym]; apply sort_perm.
Qed.

End AnyComparator.

(** A comparator that orders by an integer key. *)
Section ByKey.
Context {A : Type}.
Variable cmp : A -> A -> Z.
Variable key : A -> Z.
Hypothesis cmp_key : forall a b, cmp a b <= 0 <-> key a <= key b.

Let byKey (a b : A) : Prop := key a <= key b.

Lemma insert_sorted (x : A) (l : list A) :
  StronglySorted byKey l -> StronglySorted byKey (insert cmp x l).
Proof.
  induction l as [| y l IH]; simpl; intros Hs.
  - constructor; [constructor | constructor].
  - inversion Hs as [| y' l' Hsl Hall]; subst.
    destruct (cmp x y <=? 0) eqn:Hc.
    + apply Z.leb_le, cmp_key in Hc.
      constructor; [exact Hs |].
      constructor; [exact Hc |].
      eapply Forall_impl; [| exact Hall].
      intros z Hz. unfold byKey in *. lia.
    + apply Z.leb_gt in Hc.
      assert (Hyx : key y <= key x).
      { destruct (Z_le_gt_dec (key x) (key y)) as [Hle | Hgt]; [| lia].
        apply cmp_key in Hle. lia. }
      constructor; [apply IH; exact Hsl |].
      eapply Permutation_Forall.
      * apply Permutation_sym. apply insert_perm.
      * constructor; [exact Hyx | exact Hall].
Qed.

Lemma sort_sorted (l : list A) : StronglySorted byKey (sort cmp l).
Proof.
  induction l as [| x l IH]; simpl.
  - constructor.
  - apply insert_sorted. exact IH.
Qed.

Lemma sort_keys_sorted (l : list A) : StronglySorted Z.le (map key (sort cmp l)).
Proof.
  pose proof (sort_sorted l) as Hs.
  induction Hs as [| a l' Hs IH Hall]; simpl; constructor.
  - exact IH.
  - apply Forall_map. exact Hall.
Qed.

(** The sort is stable: the elements of one key are in the order of the
    input. *)
Lemma insert_same_key (k : Z) (x : A) (l : list A) :
  filter (fun a => key a =? k) (insert cmp x l)
  = filter (fun a => key a =? k) (x :: l).
Proof.
  induction l as [| y l IH]; [reflexivity |].
  cbn [insert]. destruct (cmp x y <=? 0) eqn:Hc; [reflexivity |].
  apply Z.leb_gt in Hc.
  assert (Hxy : key y < key x).
  { destruct (Z_lt_le_dec (key y) (key x)) as [Hlt | Hle]; [exact Hlt |].
    apply cmp_key in Hle. lia. }
  cbn [filter] in *. rewrite IH.
  destruct (key y =? k) eqn:Hy; destruct (key x =? k) eqn:Hx; try reflexivity.
  apply Z.eqb_eq in Hy, Hx. lia.
Qed.

Lemma sort_stable (k : Z) (l : list A) :
  filter (fun a => key a =? k) (sort cmp l) = filter (fun a => key a =? k) l.
Proof.
  induction l as [| x l IH]; [reflexivity |].
  cbn [sort fold_right]. fold (sort cmp l).
  rewrite insert_same_key. cbn [filter]. rewrite IH. reflexivity.
Qed.

End ByKey.

(** Two arrangements of the same integers, both in order, are the same
    list. *)
Lemma sorted_perm_unique (l1 l2 : list Z) :
  StronglySorted Z.le l1 -> StronglySorted Z.le l2 -> Permutation l1 l2 -> l1 = l2.
Proof.
  revert l2. induction l1 as [| a l1 IH]; intros l2 H1 H2 Hp.
  - apply Permutation_nil in Hp. symmetry. exact Hp.
  - destruct l2 as [| b l2].
    + apply Permutation_sym, Permutation_nil in Hp. discriminate.
    + inversion H1 as [| ? ? Hs1 Ha]; subst.
      inversion H2 as [| ? ? Hs2 Hb]; subst.
      assert (Hab : a = b).
      { assert (Hb_in : In b (a :: l1))
          by (eapply Permutation_in; [apply Permutation_sym; exact Hp | left; reflexivity]).
        assert (Ha_in : In a (b :: l2))
          by (eapply Permutation_in; [exact Hp | left; reflexivity]).
        rewrite Forall_forall in Ha, Hb.
        destruct Hb_in as [-> | Hb_in]; [reflexivity |].
        destruct Ha_in as [-> | Ha_in]; [reflexivity |].
        specialize (Ha b Hb_in). specialize (Hb a Ha_in). lia. }
      subst b. f_equal. apply IH; try assumption.
      eapply Permutation_cons_inv. exact Hp.
Qed.

Lemma sorted_app (l1 l2 : list Z) :
  StronglySorted Z.le l1 -> StronglySorted Z.le l2 ->
  (forall x y, In x l1 -> In y l2 -> x <= y) ->
  StronglySorted Z.le (l1 ++ l2).
Proof.
  induction l1 as [| a l1 IH]; simpl; intros H1 H2 H12.
  - exact H2.
  - inversion H1 as [| ? ? Hs1 Ha]; subst. constructor.
    + apply IH; try assumption. intros x y Hx Hy. apply H12; [right |]; assumption.
    + apply Forall_app. split; [exact Ha |].
      apply Forall_forall. intros y Hy. apply H12; [left; reflexivity | exact Hy].
Qed.

(** A list in order, read backwards and negated, is in order. *)
Lemma sorted_rev_opp (l : list Z) :
  StronglySorted Z.le l -> StronglySorted Z.le (map Z.opp (rev l)).
Proof.
  induction l as [| a l IH]; simpl; intros Hs.
  - constructor.
  - inversion Hs as [| ? ? Hsl Ha]; subst.
    rewrite map_app. simpl. apply sorted_app.
    + apply IH. exact Hsl.
    + constructor; [constructor | constructor].
    + intros x y Hx [<- | []].
      apply in_map_iff in Hx. destruct Hx as (z & <- & Hz).
      apply in_rev in Hz. rewrite Forall_forall in Ha. specialize (Ha z Hz). lia.
Qed.

(** Two arrangements of the same elements with the same sequence of
    keys are the same list, when no key occurs twice. *)
Lemma same_keys_same_list {A} (key : A -> Z) (l1 l2 : list A) :
  Permutation l1 l2 -> NoDup (map key l1) -> map key l1 = map key l2 -> l1 = l2.
Proof.
  revert l2. induction l1 as [| a l1 IH]; intros l2 Hp Hnd Hk.
  - destruct l2; [reflexivity | discriminate].
  - destruct l2 as [| b l2]; [discriminate |].
    simpl in Hk. injection Hk as Hab Hk.
    inversion Hnd as [| ? ? Hnotin Hnd']; subst.
    assert (a = b) as ->.
    { assert (Hb_in : In b (a :: l1))
        by (eapply Permutation_in; [apply Permutation_sym; exact Hp | left; reflexivity]).
      destruct Hb_in as [-> | Hb_in]; [reflexivity |].
      exfalso. apply Hnotin. rewrite Hab. apply in_map. exact Hb_in. }
    f_equal. apply IH; try assumption.
    eapply Permutation_cons_inv. exact Hp.
Qed.

End JsArraySpec.


(* ================================================================= *)
(** ** Sample states *)

Module AppSamples.
Import App.

(** The dates of the samples; any other string is an invalid date. *)
Definition getTime (s : string) : option Z :=
  if (s =? "2025-11-12T09:15:27Z")%string then Some 1762938927000
  else if (s =? "2025-11-13T18:02:00Z")%string then Some 1763056920000
  else None.

Definition closedModal : ModalState := mkModal false "" None false None.

(** A first load: nothing collected, ten tokens. *)
Definition fresh : AppState :=
  mkState [] 10 false None newestFirst closedModal (IndexedDbService.mkDb [] 10).

(** One OWNED record of rarity A, five tokens. *)
Definition oneOwned : AppState :=
  mkState [Samples.voltadraco] 5 false None newestFirst closedModal
    (IndexedDbService.mkDb [Samples.voltadraco] 5).

(** The same record once resold. *)
Definition oneResold : AppState :=
  mkState [Pokemon.withStatus PokemonStatus.RESOLD Samples.voltadraco] 23 false None
    newestFirst closedModal
    (IndexedDbService.mkDb [Pokemon.withStatus PokemonStatus.RESOLD Samples.voltadraco] 23).

(** Two records of the same rarity. *)
Definition rattata : Pokemon.t :=
  Pokemon.mk "pkm_a" "Rattata" PokemonRarity.F "Normal" 12 "Tackle" 60 "AAAA"
    "2025-11-12T09:15:27Z" PokemonStatus.OWNED.

Definition pidgey : Pokemon.t :=
  Pokemon.mk "pkm_b" "Pidgey" PokemonRarity.F "Flying" 15 "Scratch" 55 "BBBB"
    "2025-11-13T18:02:00Z" PokemonStatus.OWNED.

End AppSamples.

(* ================================================================= *)
(** ** Properties of the coordinator *)

Module AppSpec.
Import Js App.

(** The number of records of a status in a collection. *)
Definition countStatus (s : PokemonStatus.t) (l : list Pokemon.t) : Z :=
  Z.of_nat (List.length (filter (fun p => PokemonStatus.eqb (Pokemon.status p) s) l)).

(** The call of the generation client, or else the write of the new
    record, fails with [e]. *)
Definition generationFails (st : AppState) (net : Remote.Network)
    (rnd : Remote.Randoms) (e : Thrown) : Prop :=
  (exists e', PokemonApiService.generatePokemon net rnd = Throw e' /\ e = ApiError e')
  \/ (exists p e', PokemonApiService.generatePokemon net rnd = Return p /\
                   IndexedDbService.addPokemon p (db st) = Throw e' /\
                   e = StoreError e').

(** *** The store *)

Lemma updateTokenBalance_ok (n : Z) (d : IndexedDbService.Db) :
  0 <= n ->
  IndexedDbService.updateTokenBalance n d
  = Return (IndexedDbService.mkDb (IndexedDbService.records d) n).
Proof.
  intros H. unfold IndexedDbService.updateTokenBalance.
  destruct (n <? 0) eqn:Hn; [apply Z.ltb_lt in Hn; lia | reflexivity].
Qed.

(** Whether [addPokemon] accepts a record does not depend on the
    balance, which it leaves as it is. *)
Lemma addPokemon_amount (p : Pokemon.t) (l : list Pokemon.t) (a b : Z) :
  IndexedDbService.addPokemon p (IndexedDbService.mkDb l a)
  = match IndexedDbService.addPokemon p (IndexedDbService.mkDb l b) with
    | Return d => Return (IndexedDbService.mkDb (IndexedDbService.records d) a)
    | Throw e => Throw e
    end.
Proof.
  unfold IndexedDbService.addPokemon. simpl.
  destruct (existsb (IndexedDbService.sameId (Pokemon.id p)) l); reflexivity.
Qed.

Lemma addPokemon_records (p : Pokemon.t) (d d' : IndexedDbService.Db) :
  IndexedDbService.addPokemon p d = Return d' ->
  IndexedDbService.records d' = (IndexedDbService.records d ++ [p])%list /\
  IndexedDbService.amount d' = IndexedDbService.amount d.
Proof.
  unfold IndexedDbService.addPokemon.
  destruct (existsb _ _); intros H; inversion H. simpl. split; reflexivity.
Qed.

Section WithDate.
Variable getTime : string -> option Z.

(** *** Generation *)

(** The state a rolled back generation ends in. *)
Definition rolledBack (st : AppState) (e : Thrown) : AppState :=
  mkState (pokemons st) (tokenBalance st) false
    (Some (mkMessage MessageType.error
             ("Failed to generate Pokémon: " ++ errorText e ++ ". Tokens refunded.")))
    (sortOrder st) (modal st)
    (IndexedDbService.mkDb (IndexedDbService.records (db st)) (tokenBalance st)).

(** The state a generation that went through ends in. *)
Definition settled (st : AppState) (p : Pokemon.t) : AppState :=
  mkState (sortPokemons getTime (p :: pokemons st) (sortOrder st))
    (tokenBalance st - GENERATION_COST) false
    (Some (mkMessage MessageType.success
             ("Awesome! You generated a new Pokémon: " ++ Pokemon.name p
              ++ " (" ++ PokemonRarity.toString (Pokemon.rarity p)
              ++ ", " ++ Pokemon.type p ++ ")!")))
    (sortOrder st) (modal st)
    (IndexedDbService.mkDb (IndexedDbService.records (db st) ++ [p])
       (tokenBalance st - GENERATION_COST)).

(** Every run of the handler that passes the balance check. *)
Lemma handleGeneratePokemon_run (net : Remote.Network) (rnd : Remote.Randoms)
    (st : AppState) :
  GENERATION_COST <= tokenBalance st ->
  handleGeneratePokemon getTime net rnd st
  = match PokemonApiService.generatePokemon net rnd with
    | Throw e => (rolledBack st (ApiError e), Return tt)
    | Return p =>
        match IndexedDbService.addPokemon p (db st) with
        | Throw e => (rolledBack st (StoreError e), Return tt)
        | Return _ => (settled st p, Return tt)
        end
    end.
Proof.
  intros Hcost. unfold GENERATION_COST in Hcost.
  unfold handleGeneratePokemon.
  destruct (tokenBalance st <? GENERATION_COST) eqn:Hlt;
    [apply Z.ltb_lt in Hlt; unfold GENERATION_COST in Hlt; lia |].
  unfold bindM, setIsGeneratingPokemon, tryCatchFinally, generateTry, generateCatch,
    bindM, setTokenBalance, indexedDb, pokemonApi, showMessage, setMessage, setPokemons.
  simpl.
  rewrite (updateTokenBalance_ok (tokenBalance st - GENERATION_COST))
    by (unfold GENERATION_COST; lia).
  simpl.
  destruct (PokemonApiService.generatePokemon net rnd) as [p | e]; simpl.
  - destruct (db st) as [l a] eqn:Hdb. simpl.
    rewrite (addPokemon_amount p l (tokenBalance st - GENERATION_COST) a).
    destruct (IndexedDbService.addPokemon p (IndexedDbService.mkDb l a)) as [d' | e] eqn:Hadd;
      simpl.
    + apply addPokemon_records in Hadd. destruct Hadd as [Hr _]. simpl in Hr.
      rewrite Hr. unfold settled. rewrite Hdb. reflexivity.
    + rewrite (updateTokenBalance_ok (tokenBalance st)) by lia.
      unfold rolledBack. rewrite Hdb. reflexivity.
  - rewrite (updateTokenBalance_ok (tokenBalance st)) by lia.
    unfold rolledBack. reflexivity.
Qed.

(** C7: a generation asked for while the balance is below the cost is
    refused with the warning that names the cost and the balance, and the
    balance, the collection and the database are left as they were. *)
Theorem insufficient_funds_changes_nothing (net : Remote.Network)
    (rnd : Remote.Randoms) (st : AppState) :
  tokenBalance st < GENERATION_COST ->
  let st' := fst (handleGeneratePokemon getTime net rnd st) in
  tokenBalance st' = tokenBalance st /\
  pokemons st' = pokemons st /\
  db st' = db st /\
  isGeneratingPokemon st' = isGeneratingPokemon st /\
  message st'
  = Some (mkMessage MessageType.warning
            ("You need 10 tokens to generate a Pokémon. Current balance: "
             ++ numberToString (tokenBalance st) ++ ".")) /\
  snd (handleGeneratePokemon getTime net rnd st) = Return tt.
Proof.
  intros Hlt. apply Z.ltb_lt in Hlt.
  unfold handleGeneratePokemon. rewrite Hlt. simpl.
  repeat split; reflexivity.
Qed.

(** C1: when the call of the generation client fails, or the write of
    the new record after it, the balance ends at its initial value in
    memory and in the database, the collection in memory and the records
    of the database are those of before, and the failure is shown with
    the note that the tokens were refunded. *)
Theorem failed_generation_is_rolled_back (net : Remote.Network)
    (rnd : Remote.Randoms) (st : AppState) (e : Thrown) :
  GENERATION_COST <= tokenBalance st ->
  generationFails st net rnd e ->
  let st' := fst (handleGeneratePokemon getTime net rnd st) in
  tokenBalance st' = tokenBalance st /\
  IndexedDbService.getTokenBalance (db st') = tokenBalance st /\
  (IndexedDbService.getTokenBalance (db st) = tokenBalance st -> db st' = db st) /\
  pokemons st' = pokemons st /\
  IndexedDbService.getPokemons (db st') = IndexedDbService.getPokemons (db st) /\
  message st'
  = Some (mkMessage MessageType.error
            ("Failed to generate Pokémon: " ++ errorText e ++ ". Tokens refunded.")) /\
  snd (handleGeneratePokemon getTime net rnd st) = Return tt.
Proof.
  intros Hcost Hfail.
  rewrite (handleGeneratePokemon_run net rnd st Hcost).
  assert (Hdb : IndexedDbService.getTokenBalance (db st) = tokenBalance st ->
                db (rolledBack st e) = db st).
  { unfold rolledBack, IndexedDbService.getTokenBalance. simpl.
    intros <-. destruct (db st); reflexivity. }
  destruct Hfail as [(e' & Hgen & ->) | (p & e' & Hgen & Hadd & ->)];
    rewrite Hgen; [| rewrite Hadd]; simpl;
    repeat split; try reflexivity; exact Hdb.
Qed.

(** C3: when the call of the generation client returns a Pokémon and
    the write of the record goes through, the balance ends at its initial
    value less the cost of 10, in memory and in the database, and the
    record, which is OWNED, is the one record added to the collection and
    to the database. *)
Theorem successful_generation_debits_the_cost (net : Remote.Network)
    (rnd : Remote.Randoms) (st : AppState) (p : Pokemon.t) (d : IndexedDbService.Db) :
  GENERATION_COST <= tokenBalance st ->
  PokemonApiService.generatePokemon net rnd = Return p ->
  IndexedDbService.addPokemon p (db st) = Return d ->
  let st' := fst (handleGeneratePokemon getTime net rnd st) in
  GENERATION_COST = 10 /\
  tokenBalance st' = tokenBalance st - GENERATION_COST /\
  IndexedDbService.getTokenBalance (db st') = tokenBalance st - GENERATION_COST /\
  Pokemon.status p = PokemonStatus.OWNED /\
  In p (pokemons st') /\
  Permutation (pokemons st') (p :: pokemons st) /\
  IndexedDbService.getPokemons (db st')
  = (IndexedDbService.getPokemons (db st) ++ [p])%list /\
  snd (handleGeneratePokemon getTime net rnd st) = Return tt.
Proof.
  intros Hcost Hgen Hadd.
  rewrite (handleGeneratePokemon_run net rnd st Hcost), Hgen, Hadd. simpl.
  assert (Hperm : Permutation (sortPokemons getTime (p :: pokemons st) (sortOrder st))
                    (p :: pokemons st)) by apply JsArraySpec.sort_perm.
  repeat split; try reflexivity.
  - apply PokemonApiServiceSpec.generatePokemon_Return_inv in Hgen.
    destruct Hgen as (res & b & md & _ & _ & _ & _ & _ & ->). reflexivity.
  - eapply Permutation_in; [apply Permutation_sym; exact Hperm | left; reflexivity].
  - exact Hperm.
Qed.

(** *** Resell *)

(** [prevPokemons.map(p => p.id === u.id ? u : p)]. *)
Definition replaceById (u : Pokemon.t) (l : list Pokemon.t) : list Pokemon.t :=
  map (fun p => if (Pokemon.id p =? Pokemon.id u)%string then u else p) l.

(** The state a resell that found no record ends in: the modal is
    closed. *)
Definition dismissed (st : AppState) : AppState :=
  mkState (pokemons st) (tokenBalance st) (isGeneratingPokemon st) (message st)
    (sortOrder st) (mkModal false "" None false None) (db st).

(** The state a resell ends in when a write of the store fails, [d]
    being the database reached. *)
Definition refused (st : AppState) (d : IndexedDbService.Db) (e : Thrown) : AppState :=
  mkState (pokemons st) (tokenBalance st) (isGeneratingPokemon st)
    (Some (mkMessage MessageType.error ("Failed to resell Pokémon: " ++ errorText e)))
    (sortOrder st) (mkModal false "" None false None) d.

(** The state a resell that went through ends in. *)
Definition resold (st : AppState) (q : Pokemon.t) (price : Z) (d : IndexedDbService.Db)
  : AppState :=
  mkState
    (sortPokemons getTime
       (replaceById (Pokemon.withStatus PokemonStatus.RESOLD q) (pokemons st))
       (sortOrder st))
    (tokenBalance st + price) (isGeneratingPokemon st)
    (Some (mkMessage MessageType.success
             (Pokemon.name q ++ " resold successfully! You gained "
              ++ numberToString price ++ " tokens.")))
    (sortOrder st) (mkModal false "" None false None) d.

(** Every run of the resell flow. *)
Lemma resell_run (pokemonId pokemonName : string) (pokemonRarity : PokemonRarity.t)
    (st : AppState) :
  resell getTime pokemonId pokemonName pokemonRarity st
  = match find (fun p => (Pokemon.id p =? pokemonId)%string) (pokemons st) with
    | None => (dismissed st, Return tt)
    | Some q =>
        match IndexedDbService.updatePokemon
                (Pokemon.withStatus PokemonStatus.RESOLD q) (db st) with
        | Throw e => (refused st (db st) (StoreError e), Return tt)
        | Return d1 =>
            match IndexedDbService.updateTokenBalance
                    (tokenBalance st + POKEMON_RESELL_VALUES pokemonRarity) d1 with
            | Throw e => (refused st d1 (StoreError e), Return tt)
            | Return d2 =>
                (resold st q (POKEMON_RESELL_VALUES pokemonRarity) d2, Return tt)
            end
        end
    end.
Proof.
  unfold resell, handleResellConfirmation, confirmModal, resellOnConfirm, resellTry,
    tryCatchFinally, closeModal, bindM, setPokemonToResellId, setModalTitle,
    setModalOnConfirm, setIsModalOpen, setIsModalConfirmLoading, setModal,
    showMessage, setMessage, setTokenBalance, setPokemons, indexedDb, ret.
  simpl.
  destruct (find _ (pokemons st)) as [q |]; simpl; [| reflexivity].
  destruct (IndexedDbService.updatePokemon _ (db st)) as [d1 | e]; simpl; [| reflexivity].
  destruct (IndexedDbService.updateTokenBalance _ d1) as [d2 | e]; simpl; reflexivity.
Qed.

(** In a collection without two records of one id, the record found by
    its id is the record. *)
Lemma find_by_id (p : Pokemon.t) (l : list Pokemon.t) :
  NoDup (map Pokemon.id l) -> In p l ->
  find (fun q => (Pokemon.id q =? Pokemon.id p)%string) l = Some p.
Proof.
  induction l as [| a l IH]; simpl; intros Hnd Hin; [contradiction |].
  inversion Hnd as [| ? ? Hnotin Hnd']; subst.
  destruct (Pokemon.id a =? Pokemon.id p)%string eqn:Heq.
  - apply String.eqb_eq in Heq.
    destruct Hin as [-> | Hin]; [reflexivity |].
    exfalso. apply Hnotin. rewrite Heq. apply in_map. exact Hin.
  - destruct Hin as [-> | Hin]; [rewrite String.eqb_refl in Heq; discriminate |].
    apply IH; assumption.
Qed.

Lemma find_unknown_id (i : string) (l : list Pokemon.t) :
  (forall p, In p l -> Pokemon.id p <> i) ->
  find (fun q => (Pokemon.id q =? i)%string) l = None.
Proof.
  intros H. destruct (find _ l) as [q |] eqn:Hf; [| reflexivity].
  apply find_some in Hf. destruct Hf as [Hin Heq].
  apply String.eqb_eq in Heq. exfalso. exact (H q Hin Heq).
Qed.

Lemma updatePokemon_records (u : Pokemon.t) (d d' : IndexedDbService.Db) :
  IndexedDbService.updatePokemon u d = Return d' ->
  IndexedDbService.records d' = replaceById u (IndexedDbService.records d) /\
  IndexedDbService.amount d' = IndexedDbService.amount d.
Proof.
  unfold IndexedDbService.updatePokemon.
  destruct (find _ _) as [old |]; [| discriminate].
  destruct (_ && _); [discriminate |].
  intros H. inversion H. simpl. split; reflexivity.
Qed.

Lemma updateTokenBalance_records (n : Z) (d d' : IndexedDbService.Db) :
  IndexedDbService.updateTokenBalance n d = Return d' ->
  IndexedDbService.records d' = IndexedDbService.records d /\
  IndexedDbService.amount d' = n.
Proof.
  unfold IndexedDbService.updateTokenBalance.
  destruct (n <? 0); [discriminate |].
  intros H. inversion H. simpl. split; reflexivity.
Qed.

Lemma replaceById_In (u p : Pokemon.t) (l : list Pokemon.t) :
  In p l -> Pokemon.id p = Pokemon.id u -> In u (replaceById u l).
Proof.
  intros Hin Hid. unfold replaceById. apply in_map_iff.
  exists p. split; [| exact Hin].
  rewrite Hid, String.eqb_refl. reflexivity.
Qed.

(** C4: a resell asked for from the card of an OWNED record, both
    writes of which go through, ends with the initial balance plus the
    value of the rarity of the record under the schedule F=2, E=3, D=5,
    C=8, B=12, A=18, S=25, S+=40, in memory and in the database; the
    collection and the records of the database are those of before with
    the record replaced by a record of status RESOLD that is equal to it
    in every other field. *)
Theorem successful_resell_credits_the_rarity_value (st : AppState) (p : Pokemon.t)
    (d1 d2 : IndexedDbService.Db) :
  In p (pokemons st) ->
  NoDup (map Pokemon.id (pokemons st)) ->
  Pokemon.status p = PokemonStatus.OWNED ->
  IndexedDbService.updatePokemon (Pokemon.withStatus PokemonStatus.RESOLD p) (db st)
  = Return d1 ->
  IndexedDbService.updateTokenBalance
    (tokenBalance st + POKEMON_RESELL_VALUES (Pokemon.rarity p)) d1 = Return d2 ->
  let st' := fst (resell getTime (Pokemon.id p) (Pokemon.name p) (Pokemon.rarity p) st) in
  let p' := Pokemon.withStatus PokemonStatus.RESOLD p in
  map POKEMON_RESELL_VALUES PokemonRarity.all = [2; 3; 5; 8; 12; 18; 25; 40] /\
  tokenBalance st' = tokenBalance st + POKEMON_RESELL_VALUES (Pokemon.rarity p) /\
  IndexedDbService.getTokenBalance (db st')
  = tokenBalance st + POKEMON_RESELL_VALUES (Pokemon.rarity p) /\
  resellButton p
  = Some (handleResellConfirmation (Pokemon.id p) (Pokemon.name p) (Pokemon.rarity p)) /\
  Pokemon.status p' = PokemonStatus.RESOLD /\
  Pokemon.withStatus PokemonStatus.OWNED p' = p /\
  In p' (pokemons st') /\
  Permutation (pokemons st') (replaceById p' (pokemons st)) /\
  (forall q, In q (pokemons st) -> Pokemon.id q <> Pokemon.id p -> In q (pokemons st')) /\
  IndexedDbService.getPokemons (db st')
  = replaceById p' (IndexedDbService.getPokemons (db st)).
Proof.
  intros Hin Hnd Howned Hup Hbal. rewrite resell_run.
  rewrite (find_by_id p (pokemons st) Hnd Hin), Hup, Hbal. simpl.
  assert (Hperm : Permutation
                    (sortPokemons getTime
                       (replaceById (Pokemon.withStatus PokemonStatus.RESOLD p) (pokemons st))
                       (sortOrder st))
                    (replaceById (Pokemon.withStatus PokemonStatus.RESOLD p) (pokemons st)))
    by apply JsArraySpec.sort_perm.
  apply updatePokemon_records in Hup. destruct Hup as [Hr1 _].
  apply updateTokenBalance_records in Hbal. destruct Hbal as [Hr2 Ha2].
  split; [reflexivity |]. split; [reflexivity |]. split; [exact Ha2 |].
  split; [unfold resellButton; rewrite Howned; reflexivity |].
  split; [reflexivity |].
  split; [destruct p; simpl in Howned; rewrite Howned; reflexivity |].
  split; [| split; [exact Hperm | split]].
  - eapply Permutation_in; [apply Permutation_sym; exact Hperm |].
    apply (replaceById_In _ p); [exact Hin | reflexivity].
  - intros q Hq Hne.
    eapply Permutation_in; [apply Permutation_sym; exact Hperm |].
    unfold replaceById. apply in_map_iff. exists q. split; [| exact Hq].
    simpl. destruct (Pokemon.id q =? Pokemon.id p)%string eqn:Heq; [| reflexivity].
    apply String.eqb_eq in Heq. contradiction.
  - unfold IndexedDbService.getPokemons. rewrite Hr2, Hr1. reflexivity.
Qed.

(** After a resell that went through, the view has no resell button on
    the card of the record. *)
Lemma resold_record_has_no_button (st : AppState) (p : Pokemon.t)
    (d1 d2 : IndexedDbService.Db) :
  In p (pokemons st) ->
  NoDup (map Pokemon.id (pokemons st)) ->
  IndexedDbService.updatePokemon (Pokemon.withStatus PokemonStatus.RESOLD p) (db st)
  = Return d1 ->
  IndexedDbService.updateTokenBalance
    (tokenBalance st + POKEMON_RESELL_VALUES (Pokemon.rarity p)) d1 = Return d2 ->
  forall q,
    In q (pokemons (fst (resell getTime (Pokemon.id p) (Pokemon.name p)
                           (Pokemon.rarity p) st))) ->
    Pokemon.id q = Pokemon.id p ->
    resellButton q = None.
Proof.
  intros Hin Hnd Hup Hbal q Hq Hid. revert Hq. rewrite resell_run.
  rewrite (find_by_id p (pokemons st) Hnd Hin), Hup, Hbal.
  unfold resold. cbn [fst pokemons]. intros Hq.
  apply JsArraySpec.sort_In in Hq. unfold replaceById in Hq.
  apply in_map_iff in Hq. destruct Hq as (x & Hx & _).
  destruct (Pokemon.id x =? Pokemon.id (Pokemon.withStatus PokemonStatus.RESOLD p))%string
    eqn:Heq.
  - subst q. reflexivity.
  - subst q. simpl in Heq. rewrite Hid, String.eqb_refl in Heq. discriminate.
Qed.

Lemma resell_unknown_id (pokemonId pokemonName : string)
    (pokemonRarity : PokemonRarity.t) (st : AppState) :
  (forall p, In p (pokemons st) -> Pokemon.id p <> pokemonId) ->
  resell getTime pokemonId pokemonName pokemonRarity st = (dismissed st, Return tt).
Proof.
  intros Hunknown. rewrite resell_run, (find_unknown_id _ _ Hunknown). reflexivity.
Qed.

(** *** The ids of the collection *)

(** The collection in memory has the ids of the records of the
    database, each once. *)
Definition mirrored (st : AppState) : Prop :=
  NoDup (map Pokemon.id (pokemons st)) /\
  Permutation (map Pokemon.id (pokemons st))
    (map Pokemon.id (IndexedDbService.records (db st))).

Lemma replaceById_ids (u : Pokemon.t) (l : list Pokemon.t) :
  map Pokemon.id (replaceById u l) = map Pokemon.id l.
Proof.
  unfold replaceById. rewrite map_map. apply map_ext.
  intros q. destruct (Pokemon.id q =? Pokemon.id u)%string eqn:Heq; [| reflexivity].
  apply String.eqb_eq in Heq. symmetry. exact Heq.
Qed.

Lemma sortPokemons_ids (l : list Pokemon.t) (o : SortOrder) :
  Permutation (map Pokemon.id (sortPokemons getTime l o)) (map Pokemon.id l).
Proof. apply Permutation_map. apply JsArraySpec.sort_perm. Qed.

Lemma addPokemon_fresh (p : Pokemon.t) (d d' : IndexedDbService.Db) :
  IndexedDbService.addPokemon p d = Return d' ->
  ~ In (Pokemon.id p) (map Pokemon.id (IndexedDbService.records d)).
Proof.
  unfold IndexedDbService.addPokemon.
  destruct (existsb _ _) eqn:Hex; [discriminate |].
  intros _ Hin. apply in_map_iff in Hin. destruct Hin as (q & Hid & Hq).
  assert (Htrue : existsb (IndexedDbService.sameId (Pokemon.id p))
                    (IndexedDbService.records d) = true).
  { apply existsb_exists. exists q. split; [exact Hq |].
    unfold IndexedDbService.sameId. apply String.eqb_eq. exact Hid. }
  rewrite Htrue in Hex. discriminate.
Qed.

(** Generation keeps the ids of the collection those of the database,
    each once. *)
Lemma handleGeneratePokemon_mirrored (net : Remote.Network) (rnd : Remote.Randoms)
    (st : AppState) :
  mirrored st -> mirrored (fst (handleGeneratePokemon getTime net rnd st)).
Proof.
  intros [Hnd Hperm].
  destruct (Z_lt_le_dec (tokenBalance st) GENERATION_COST) as [Hlt | Hle].
  - apply Z.ltb_lt in Hlt. unfold handleGeneratePokemon. rewrite Hlt.
    split; assumption.
  - rewrite (handleGeneratePokemon_run net rnd st Hle).
    destruct (PokemonApiService.generatePokemon net rnd) as [p | e];
      [| split; assumption].
    destruct (IndexedDbService.addPokemon p (db st)) as [d | e] eqn:Hadd;
      [| split; assumption].
    apply addPokemon_fresh in Hadd.
    assert (Hnew : ~ In (Pokemon.id p) (map Pokemon.id (pokemons st))).
    { intros Hin. apply Hadd. eapply Permutation_in; [exact Hperm | exact Hin]. }
    unfold mirrored, settled. cbn [fst pokemons db IndexedDbService.records]. split.
    + eapply Permutation_NoDup; [apply Permutation_sym, sortPokemons_ids |].
      cbn [map]. constructor; assumption.
    + eapply perm_trans; [apply sortPokemons_ids |].
      rewrite map_app. cbn [map].
      eapply perm_trans; [apply perm_skip; exact Hperm |].
      apply Permutation_cons_append.
Qed.

(** So does the resell flow. *)
Lemma resell_mirrored (pokemonId pokemonName : string) (pokemonRarity : PokemonRarity.t)
    (st : AppState) :
  mirrored st -> mirrored (fst (resell getTime pokemonId pokemonName pokemonRarity st)).
Proof.
  intros [Hnd Hperm]. rewrite resell_run.
  destruct (find _ (pokemons st)) as [q |]; [| split; assumption].
  destruct (IndexedDbService.updatePokemon _ (db st)) as [d1 | e] eqn:Hup;
    [| split; assumption].
  apply updatePokemon_records in Hup. destruct Hup as [Hr1 _].
  destruct (IndexedDbService.updateTokenBalance _ d1) as [d2 | e] eqn:Hbal.
  - apply updateTokenBalance_records in Hbal. destruct Hbal as [Hr2 _].
    unfold mirrored, resold. cbn [fst pokemons db]. rewrite Hr2, Hr1, replaceById_ids. split.
    + eapply Permutation_NoDup; [apply Permutation_sym, sortPokemons_ids |].
      rewrite replaceById_ids. exact Hnd.
    + eapply perm_trans; [apply sortPokemons_ids |].
      rewrite replaceById_ids. exact Hperm.
  - unfold mirrored, refused. cbn [fst pokemons db]. rewrite Hr1, replaceById_ids.
    split; assumption.
Qed.

(** *** Sorting by rarity *)

(** The key of the rarity sorts. *)
Definition rarityValue (p : Pokemon.t) : Z := RARITY_VALUES (Pokemon.rarity p).

Lemma RARITY_VALUES_inj (r1 r2 : PokemonRarity.t) :
  RARITY_VALUES r1 = RARITY_VALUES r2 -> r1 = r2.
Proof. destruct r1, r2; simpl; intros H; try reflexivity; discriminate H. Qed.

Lemma map_injective {A B} (f : A -> B) (l1 l2 : list A) :
  (forall x y, f x = f y -> x = y) -> map f l1 = map f l2 -> l1 = l2.
Proof.
  intros Hinj. revert l2. induction l1 as [| a l1 IH]; intros [| b l2] H;
    try reflexivity; try discriminate.
  simpl in H. injection H as Hab H. f_equal; [apply Hinj; exact Hab | apply IH; exact H].
Qed.

Lemma rarityAsc_keys_sorted (l : list Pokemon.t) :
  StronglySorted Z.le (map rarityValue (sortPokemons getTime l rarityAsc)).
Proof.
  apply JsArraySpec.sort_keys_sorted.
  intros a b. unfold comparePokemons, rarityValue. lia.
Qed.

Lemma rarityDesc_keys_sorted (l : list Pokemon.t) :
  StronglySorted Z.le
    (map (fun p => - rarityValue p) (sortPokemons getTime l rarityDesc)).
Proof.
  apply JsArraySpec.sort_keys_sorted.
  intros a b. unfold comparePokemons, rarityValue. lia.
Qed.

(** The keys of the descending sort are the keys of the ascending sort
    read backwards. *)
Lemma rarity_keys_reversed (l : list Pokemon.t) :
  map rarityValue (sortPokemons getTime l rarityDesc)
  = rev (map rarityValue (sortPokemons getTime l rarityAsc)).
Proof.
  apply (map_injective Z.opp); [intros x y; lia |].
  rewrite map_map.
  apply JsArraySpec.sorted_perm_unique.
  - apply rarityDesc_keys_sorted.
  - apply JsArraySpec.sorted_rev_opp. apply rarityAsc_keys_sorted.
  - apply perm_trans with (map (fun p => - rarityValue p) l).
    + apply Permutation_map. apply JsArraySpec.sort_perm.
    + rewrite <- (map_map rarityValue Z.opp l).
      apply Permutation_map.
      apply perm_trans with (map rarityValue (sortPokemons getTime l rarityAsc)).
      * apply Permutation_map, Permutation_sym, JsArraySpec.sort_perm.
      * apply Permutation_rev.
Qed.

(** The records of one rarity are in the order of the input after
    either sort. *)
Lemma rarity_sorts_stable (r : PokemonRarity.t) (l : list Pokemon.t) :
  let ofRarity := fun p => RARITY_VALUES (Pokemon.rarity p) =? RARITY_VALUES r in
  filter ofRarity (sortPokemons getTime l rarityAsc) = filter ofRarity l /\
  filter ofRarity (sortPokemons getTime l rarityDesc) = filter ofRarity l.
Proof.
  split.
  - apply (JsArraySpec.sort_stable _ rarityValue).
    intros a b. unfold comparePokemons, rarityValue. lia.
  - pose proof (JsArraySpec.sort_stable (comparePokemons getTime rarityDesc)
                  (fun p => - rarityValue p)) as Hst.
    specialize (Hst ltac:(intros a b; unfold comparePokemons, rarityValue; lia)
                    (- RARITY_VALUES r) l).
    assert (Hext : forall p,
               (- rarityValue p =? - RARITY_VALUES r)
               = (RARITY_VALUES (Pokemon.rarity p) =? RARITY_VALUES r)).
    { intros p. unfold rarityValue.
      destruct (Z.eqb_spec (RARITY_VALUES (Pokemon.rarity p)) (RARITY_VALUES r))
        as [He | He]; [apply Z.eqb_eq; lia | apply Z.eqb_neq; lia]. }
    cbv zeta.
    rewrite <- (filter_ext _ _ Hext (sortPokemons getTime l rarityDesc)),
      <- (filter_ext _ _ Hext l).
    exact Hst.
Qed.

(** C8 (amended): the values of the rarities are 0 to 7 along F, E, D,
    C, B, A, S, S+, which are all the rarities; for every collection the
    rarities of the descending sort are the rarities of the ascending
    sort read backwards, the records of one rarity are in the order of
    the collection in both sorts, and the descending sort is the
    ascending sort read backwards when no two records have the same
    rarity. *)
Theorem rarity_sorts_are_reverses_up_to_ties (l : list Pokemon.t) :
  map RARITY_VALUES PokemonRarity.all = [0; 1; 2; 3; 4; 5; 6; 7] /\
  (forall r, In r PokemonRarity.all) /\
  map Pokemon.rarity (sortPokemons getTime l rarityDesc)
  = rev (map Pokemon.rarity (sortPokemons getTime l rarityAsc)) /\
  (forall r,
     let ofRarity := fun p => RARITY_VALUES (Pokemon.rarity p) =? RARITY_VALUES r in
     filter ofRarity (sortPokemons getTime l rarityAsc) = filter ofRarity l /\
     filter ofRarity (sortPokemons getTime l rarityDesc) = filter ofRarity l) /\
  (NoDup (map Pokemon.rarity l) ->
   sortPokemons getTime l rarityDesc = rev (sortPokemons getTime l rarityAsc)).
Proof.
  split; [reflexivity |].
  split; [intros r; destruct r; simpl; tauto |].
  pose proof (rarity_keys_reversed l) as Hkeys.
  split; [| split; [intros r; apply rarity_sorts_stable |]].
  - apply (map_injective RARITY_VALUES); [apply RARITY_VALUES_inj |].
    rewrite map_rev, !map_map. rewrite <- map_rev.
    rewrite map_rev. exact Hkeys.
  - intros Hnd.
    apply (JsArraySpec.same_keys_same_list rarityValue).
    + apply perm_trans with l; [apply JsArraySpec.sort_perm |].
      apply perm_trans with (sortPokemons getTime l rarityAsc).
      * apply Permutation_sym, JsArraySpec.sort_perm.
      * apply Permutation_rev.
    + apply (Permutation_NoDup (l := map rarityValue l)).
      * apply Permutation_map, Permutation_sym, JsArraySpec.sort_perm.
      * unfold rarityValue. rewrite <- (map_map Pokemon.rarity RARITY_VALUES).
        apply Finite.Injective_map_NoDup; [| exact Hnd].
        intros x y. apply RARITY_VALUES_inj.
    + rewrite map_rev. exact Hkeys.
Qed.

(** *** The score *)

Lemma countStatus_cons (s : PokemonStatus.t) (p : Pokemon.t) (l : list Pokemon.t) :
  countStatus s (p :: l)
  = (if PokemonStatus.eqb (Pokemon.status p) s then 1 else 0) + countStatus s l.
Proof.
  unfold countStatus. cbn [filter].
  destruct (PokemonStatus.eqb (Pokemon.status p) s); cbn [List.length]; lia.
Qed.

Lemma pokedexScore_from (l : list Pokemon.t) (score : Z) :
  fold_left
    (fun score pokemon =>
       match Pokemon.status pokemon with
       | PokemonStatus.OWNED => score + OWNED_POKEMON_SCORE
       | PokemonStatus.RESOLD => score + RESOLD_POKEMON_SCORE
       end)
    l score
  = score + 10 * countStatus PokemonStatus.OWNED l
    + 2 * countStatus PokemonStatus.RESOLD l.
Proof.
  revert score. induction l as [| p l IH]; intros score.
  - unfold countStatus. simpl. lia.
  - cbn [fold_left]. rewrite IH, !countStatus_cons.
    unfold OWNED_POKEMON_SCORE, RESOLD_POKEMON_SCORE.
    destruct (Pokemon.status p); simpl PokemonStatus.eqb; cbv iota; lia.
Qed.

(** C9: the score of a collection is 10 times the number of its OWNED
    records plus 2 times the number of its RESOLD records, and the score
    of a collection that has not changed is the same. *)
Theorem score_counts_owned_and_resold (l l' : list Pokemon.t) :
  l' = l ->
  pokedexScore l
  = 10 * countStatus PokemonStatus.OWNED l + 2 * countStatus PokemonStatus.RESOLD l /\
  pokedexScore l' = pokedexScore l.
Proof.
  intros ->. split; [| reflexivity].
  unfold pokedexScore. rewrite pokedexScore_from. lia.
Qed.

End WithDate.

Lemma insufficient_funds_changes_nothing_witness :
  tokenBalance
    (fst (handleGeneratePokemon AppSamples.getTime Samples.silent Samples.draws
            AppSamples.oneOwned)) = 5.
Proof.
  apply (insufficient_funds_changes_nothing AppSamples.getTime Samples.silent
           Samples.draws AppSamples.oneOwned).
  reflexivity.
Defined.

(** The scenario of the timeout: balance 10, cost 10. *)
Lemma failed_generation_is_rolled_back_witness :
  let st' := fst (handleGeneratePokemon AppSamples.getTime Samples.silent Samples.draws
                    AppSamples.fresh) in
  tokenBalance st' = 10 /\ IndexedDbService.getTokenBalance (db st') = 10 /\
  pokemons st' = [] /\
  message st'
  = Some (mkMessage MessageType.error
            ("Failed to generate Pokémon: "
             ++ Js.message PokemonApiService.timeoutError ++ ". Tokens refunded.")).
Proof.
  assert (Hfail : generationFails AppSamples.fresh Samples.silent Samples.draws
                    (ApiError PokemonApiService.timeoutError))
    by (left; eexists; split; reflexivity).
  destruct (failed_generation_is_rolled_back AppSamples.getTime Samples.silent
              Samples.draws AppSamples.fresh _ ltac:(vm_compute; discriminate) Hfail)
    as (H1 & H2 & _ & H3 & _ & H4 & _).
  repeat split; assumption.
Defined.

(** The scenario of the success: balance 10, cost 10. *)
Lemma successful_generation_debits_the_cost_witness :
  let st' := fst (handleGeneratePokemon AppSamples.getTime
                    (Samples.answers (Samples.okResponse (Some Samples.voltadracoBody)))
                    Samples.draws AppSamples.fresh) in
  tokenBalance st' = 0 /\ In Samples.voltadraco (pokemons st').
Proof.
  destruct (successful_generation_debits_the_cost AppSamples.getTime
              (Samples.answers (Samples.okResponse (Some Samples.voltadracoBody)))
              Samples.draws AppSamples.fresh Samples.voltadraco
              (IndexedDbService.mkDb [Samples.voltadraco] 10)
              ltac:(vm_compute; discriminate) eq_refl eq_refl)
    as (_ & H1 & _ & _ & H2 & _).
  split; assumption.
Defined.

(** The scenario of the resell: one OWNED record of rarity A, balance 5. *)
Lemma successful_resell_credits_the_rarity_value_witness :
  let st' := fst (resell AppSamples.getTime (Pokemon.id Samples.voltadraco)
                    (Pokemon.name Samples.voltadraco) (Pokemon.rarity Samples.voltadraco)
                    AppSamples.oneOwned) in
  tokenBalance st' = 23 /\
  In (Pokemon.withStatus PokemonStatus.RESOLD Samples.voltadraco) (pokemons st').
Proof.
  destruct (successful_resell_credits_the_rarity_value AppSamples.getTime
              AppSamples.oneOwned Samples.voltadraco
              (IndexedDbService.mkDb
                 [Pokemon.withStatus PokemonStatus.RESOLD Samples.voltadraco] 5)
              (IndexedDbService.mkDb
                 [Pokemon.withStatus PokemonStatus.RESOLD Samples.voltadraco] 23))
    as (_ & H1 & _ & _ & _ & _ & H2 & _).
  - left. reflexivity.
  - constructor; [intros [] | constructor].
  - reflexivity.
  - reflexivity.
  - reflexivity.
  - split; assumption.
Defined.

(** C8, as stated, does not hold: two records of the same rarity keep
    their order in both sorts. *)
Lemma equal_rarities_are_not_reversed :
  ~ (forall l : list Pokemon.t,
        sortPokemons AppSamples.getTime l rarityDesc
        = rev (sortPokemons AppSamples.getTime l rarityAsc)).
Proof.
  intros H. specialize (H [AppSamples.rattata; AppSamples.pidgey]).
  vm_compute in H. discriminate H.
Qed.

Lemma rarity_sorts_are_reverses_up_to_ties_witness :
  sortPokemons AppSamples.getTime [AppSamples.rattata; Samples.voltadraco] rarityDesc
  = rev (sortPokemons AppSamples.getTime [AppSamples.rattata; Samples.voltadraco] rarityAsc).
Proof.
  apply (rarity_sorts_are_reverses_up_to_ties AppSamples.getTime
           [AppSamples.rattata; Samples.voltadraco]).
  vm_compute. repeat constructor; simpl; intuition discriminate.
Defined.

Lemma score_counts_owned_and_resold_witness :
  pokedexScore [Samples.voltadraco; Pokemon.withStatus PokemonStatus.RESOLD AppSamples.pidgey]
  = 12.
Proof.
  apply (score_counts_owned_and_resold
           [Samples.voltadraco; Pokemon.withStatus PokemonStatus.RESOLD AppSamples.pidgey]
           [Samples.voltadraco; Pokemon.withStatus PokemonStatus.RESOLD AppSamples.pidgey]).
  reflexivity.
Defined.

End AppSpec.


(* ================================================================= *)
(** ** App.tsx: the load, the sort order and the generate button *)

Module AppView.
Import Js App.

Local Notation "x <- c ;; k" := (bindM c (fun x => k))
  (at level 61, c at next level, right associativity).
Local Notation "c ;; k" := (bindM c (fun _ => k))
  (at level 61, right associativity).

(** The state of the component with the [isLoading] flag, which the
    handlers of generation and resell do not touch. *)
Record Component := mkComponent {
  isLoading : bool;
  state : AppState
}.

(** The initial values of the [useState] calls, over a database. *)
Definition initial (d : IndexedDbService.Db) : Component :=
  mkComponent true
    (mkState [] 0 false None newestFirst (mkModal false "" None false None) d).

(** [await indexedDbService.<read>()]. *)
Definition readDb {A} (read : IndexedDbService.Db -> A) : M A :=
  fun st => (st, Return (read (db st))).

Definition setSortOrder (v : SortOrder) : M unit :=
  fun st => (mkState (pokemons st) (tokenBalance st) (isGeneratingPokemon st)
               (message st) v (modal st) (db st), Return tt).

(** The [disabled] attribute of the generate button. *)
Definition generateDisabled (c : Component) : bool :=
  isGeneratingPokemon (state c) || isLoading c
  || (tokenBalance (state c) <? GENERATION_COST).

Section WithDate.
Variable getTime : string -> option Z.

(** The body of the [try] of [fetchAppData]; [sortOrder] is the value
    the callback closed over. *)
Definition fetchTry (sortOrder : SortOrder) : M unit :=
  fetchedPokemons <- readDb IndexedDbService.getPokemons ;;
  setPokemons (fun _ => sortPokemons getTime fetchedPokemons sortOrder) ;;
  balance <- readDb IndexedDbService.getTokenBalance ;;
  setTokenBalance balance ;;
  setMessage None.

(** [fetchAppData]: [setIsLoading(true)], the [try], and
    [setIsLoading(false)] in the [finally]. *)
Definition fetchAppData (c : Component) : Component :=
  let loading := mkComponent true (state c) in
  let (st, _) :=
    tryCatchFinally
      (fetchTry (sortOrder (state loading)))
      (fun _ => showMessage MessageType.error "Failed to load app data. Please try again.")
      (ret tt)
      (state loading) in
  mkComponent false st.

(** The effect that sorts the collection again when [sortOrder]
    changes. *)
Definition resortEffect : M unit :=
  fun st => setPokemons (fun prevPokemons => sortPokemons getTime prevPokemons (sortOrder st)) st.

(** The [onChange] of the sort select and the effects its render runs:
    [fetchAppData], whose callback depends on [sortOrder], starts and
    waits for the store; the effect that sorts again runs; the load
    goes on. *)
Definition changeSortOrder (v : SortOrder) (c : Component) : Component :=
  let st := fst ((setSortOrder v ;; resortEffect) (state c)) in
  fetchAppData (mkComponent (isLoading c) st).

End WithDate.
End AppView.


(* ================================================================= *)
(** ** Further properties of the generation client *)

Module ClientSpec.
Import Js Remote PokemonApiService PokemonApiServiceSpec.

Lemma fetch_Return_inv (net : Network) (res : Response) :
  fetch net = Return res -> settlesInTime net (Resolves res).
Proof.
  unfold fetch, timerFires, settlesInTime.
  destruct (latency net) as [t |]; [| discriminate].
  destruct (t <? REQUEST_TIMEOUT) eqn:Ht; simpl; [| discriminate].
  destruct (settles net) as [res' | e] eqn:Hs; [| discriminate].
  intros H. inversion H. subst res'.
  exists t. apply Z.ltb_lt in Ht. repeat split; assumption.
Qed.

Lemma truthyString_inv (v : option string) :
  truthyString v = true <-> exists s, v = Some s /\ s <> "".
Proof.
  unfold truthyString. split.
  - destruct v as [s |]; [| discriminate].
    intros H. exists s. split; [reflexivity |].
    intros ->. discriminate H.
  - intros (s & -> & Hs). destruct (s =? "")%string eqn:He; [| reflexivity].
    apply String.eqb_eq in He. contradiction.
Qed.

Lemma types_not_empty (t : string) : In t POKEMON_TYPES -> t <> "".
Proof.
  unfold POKEMON_TYPES. simpl. intros H Hempty. subst t.
  repeat (destruct H as [H | H]; [discriminate H |]). exact H.
Qed.

Lemma attacks_not_empty (t : string) : In t POKEMON_ATTACKS -> t <> "".
Proof.
  unfold POKEMON_ATTACKS. simpl. intros H Hempty. subst t.
  repeat (destruct H as [H | H]; [discriminate H |]). exact H.
Qed.

Lemma unitDraws_draws : unitDraws Samples.draws.
Proof.
  unfold unitDraws, unitDraw, Samples.draws, Qle, Qlt. simpl. lia.
Qed.

(** X1: with draws of [Math.random()], the call returns a Pokémon
    exactly when the request settles before the timer with an [ok]
    response whose body decodes to a document with a [metadata] object
    and non-empty [imageBase64], [id], [name], [rarity] and
    [generatedAt]; the Pokémon then has these five as they came, the
    four statistics drawn and the status OWNED. *)
Theorem generatePokemon_returns_iff (net : Network) (rnd : Randoms) (p : Pokemon.t) :
  unitDraws rnd ->
  (generatePokemon net rnd = Return p <->
   exists res d md i n r img g t an,
     settlesInTime net (Resolves res) /\ ok res = true /\
     json res = Return (Some d) /\ b_metadata d = Some md /\
     md_id md = Some i /\ i <> "" /\ md_name md = Some n /\ n <> "" /\
     md_rarity md = Some r /\
     b_imageBase64 d = Some img /\ img <> "" /\
     b_generatedAt d = Some g /\ g <> "" /\
     randomType rnd = Some t /\ randomAttackName rnd = Some an /\
     p = Pokemon.mk i n r t (randomAttack rnd) an (randomPv rnd) img g
           PokemonStatus.OWNED).
Proof.
  intros (Ht & Ha & Hn & Hp). split.
  - intros H. apply generatePokemon_Return_inv in H.
    destruct H as (res & d & md & Hf & Hok & Hj & Hmd & Hmiss & ->).
    apply fetch_Return_inv in Hf.
    unfold missingFields, mocked, meta in Hmiss. simpl in Hmiss.
    repeat (apply orb_false_elim in Hmiss; destruct Hmiss as [Hmiss ?]).
    repeat match goal with
           | H : negb _ = false |- _ => apply negb_false_iff in H
           end.
    repeat match goal with
           | H : truthyString _ = true |- _ => apply truthyString_inv in H;
                                               destruct H as (? & ? & ?)
           end.
    destruct (md_rarity md) as [r |] eqn:Hr; [| discriminate].
    do 10 eexists.
    repeat (split; [eassumption || reflexivity |]).
    unfold toPokemon, mocked, meta. simpl.
    repeat match goal with
           | H : _ = Some _ |- _ => rewrite H
           end.
    reflexivity.
  - intros (res & d & md & i & n & r & img & g & t & an & Hs & Hok & Hj & Hmd
            & Hi & Hi' & Hnm & Hnm' & Hr & Himg & Himg' & Hg & Hg' & Hrt & Hran & ->).
    destruct (fetch_settlesInTime net _ Hs) as [_ Hf].
    unfold generatePokemon, tryBlock. rewrite Hf. simpl. rewrite Hok. simpl.
    rewrite Hj. simpl. rewrite (mockStats_object rnd d md Hmd). simpl.
    assert (Htt : t <> "").
    { destruct (randomType_in rnd Ht) as (t' & Ht' & Hin).
      rewrite Hrt in Ht'. inversion Ht'. subst t'. apply types_not_empty. exact Hin. }
    assert (Han : an <> "").
    { destruct (randomAttackName_in rnd Hn) as (t' & Ht' & Hin).
      rewrite Hran in Ht'. inversion Ht'. subst t'. apply attacks_not_empty. exact Hin. }
    pose proof (randomAttack_range rnd Ha) as Hra.
    pose proof (randomPv_range rnd Hp) as Hrp.
    assert (Hmiss : missingFields (Some (mocked rnd d md)) = false).
    { unfold missingFields, mocked, meta. simpl.
      rewrite Himg, Hi, Hnm, Hr, Hg, Hrt, Hran. simpl.
      apply String.eqb_neq in Himg', Hi', Hnm', Hg', Htt, Han.
      rewrite Himg', Hi', Hnm', Hg', Htt, Han. simpl.
      destruct (randomAttack rnd =? 0) eqn:E1; [apply Z.eqb_eq in E1; lia |].
      destruct (randomPv rnd =? 0) eqn:E2; [apply Z.eqb_eq in E2; lia |].
      reflexivity. }
    unfold validate. rewrite Hmiss.
    unfold toPokemon, mocked, meta. simpl.
    rewrite Himg, Hi, Hnm, Hr, Hg, Hrt, Hran. reflexivity.
Qed.

Lemma generatePokemon_returns_iff_witness :
  generatePokemon (Samples.answers (Samples.okResponse (Some Samples.voltadracoBody)))
    Samples.draws = Return Samples.voltadraco <->
  exists res d md i n r img g t an,
    settlesInTime (Samples.answers (Samples.okResponse (Some Samples.voltadracoBody)))
      (Resolves res) /\ ok res = true /\
    json res = Return (Some d) /\ b_metadata d = Some md /\
    md_id md = Some i /\ i <> "" /\ md_name md = Some n /\ n <> "" /\
    md_rarity md = Some r /\
    b_imageBase64 d = Some img /\ img <> "" /\
    b_generatedAt d = Some g /\ g <> "" /\
    randomType Samples.draws = Some t /\ randomAttackName Samples.draws = Some an /\
    Samples.voltadraco
    = Pokemon.mk i n r t (randomAttack Samples.draws) an (randomPv Samples.draws) img g
        PokemonStatus.OWNED.
Proof.
  apply (generatePokemon_returns_iff
           (Samples.answers (Samples.okResponse (Some Samples.voltadracoBody)))
           Samples.draws Samples.voltadraco).
  unfold unitDraws, unitDraw, Samples.draws, Qle, Qlt. simpl. lia.
Defined.

Lemma generated_stats_in_range_witness :
  In (Pokemon.type Samples.voltadraco) POKEMON_TYPES /\
  10 <= Pokemon.attack Samples.voltadraco <= 100 /\
  In (Pokemon.attackName Samples.voltadraco) POKEMON_ATTACKS /\
  50 <= Pokemon.pv Samples.voltadraco <= 200.
Proof.
  destruct (generated_stats_in_range
              (Samples.answers (Samples.okResponse (Some Samples.voltadracoBody)))
              Samples.draws Samples.voltadraco)
    as (_ & H1 & H2 & H3 & H4 & _).
  - unfold unitDraws, unitDraw, Samples.draws, Qle, Qlt. simpl. lia.
  - reflexivity.
  - repeat split; try assumption; apply H2 || apply H4.
Defined.

(** X3: a response that is not [ok] never gives a Pokémon: the call
    fails with an error whose message is the [error.message] of the
    body when it has a non-empty one, the text with the HTTP status
    in brackets when the body decodes without one, and the text
    [HTTP error! Status: N] when the body does not decode. *)
Theorem http_failure_message (net : Network) (rnd : Randoms) (res : Response) :
  settlesInTime net (Resolves res) -> ok res = false ->
  exists m,
    generatePokemon net rnd = Throw (newError m) /\
    match json res with
    | Throw _ => m = "HTTP error! Status: " ++ numberToString (status res)
    | Return body =>
        match errorMessageOf body with
        | Some (String c s) => m = String c s
        | _ => m = "Failed to generate Pokémon (HTTP "
                   ++ numberToString (status res) ++ ")"
        end
    end.
Proof.
  intros Hs Hok. destruct (fetch_settlesInTime net _ Hs) as [_ Hf].
  unfold generatePokemon, tryBlock. rewrite Hf. simpl. rewrite Hok. simpl.
  unfold httpError.
  destruct (json res) as [body | e]; simpl.
  - destruct (errorMessageOf body) as [[| c s] |]; simpl;
      eexists; split; reflexivity.
  - eexists. split; reflexivity.
Qed.

Lemma http_failure_message_witness :
  generatePokemon
    (Samples.answers (mkResponse false 429 (Throw (mkError SyntaxErrorC "SyntaxError"
                                                      "Unexpected token < in JSON"))))
    Samples.draws
  = Throw (newError "HTTP error! Status: 429").
Proof.
  destruct (http_failure_message
              (Samples.answers (mkResponse false 429
                                  (Throw (mkError SyntaxErrorC "SyntaxError"
                                            "Unexpected token < in JSON"))))
              Samples.draws _ ltac:(in_time) eq_refl)
    as (m & Hm & Heq).
  simpl in Heq. rewrite Hm, Heq. reflexivity.
Defined.

(** X4: an error of the request or of the decoding of an [ok] body that
    is neither named [AbortError] nor a [TypeError] with the message
    [Failed to fetch] comes out of the call as it is, so that a
    connection failure worded otherwise gets no advice on certificates
    or CORS. *)
Theorem foreign_errors_are_rethrown (net : Network) (rnd : Randoms) (e : Error) :
  name e <> "AbortError" ->
  ~ (instanceofTypeError e = true /\ message e = "Failed to fetch") ->
  (settlesInTime net (Rejects e) -> generatePokemon net rnd = Throw e) /\
  (forall res, settlesInTime net (Resolves res) -> ok res = true ->
               json res = Throw e -> generatePokemon net rnd = Throw e).
Proof.
  intros Hname Hfetch.
  assert (Hcatch : catchBlock e = Throw e).
  { unfold catchBlock.
    destruct (name e =? "AbortError")%string eqn:Hn;
      [apply String.eqb_eq in Hn; contradiction |].
    destruct (instanceofTypeError e) eqn:Hi; simpl; [| reflexivity].
    destruct (message e =? "Failed to fetch")%string eqn:Hm; [| reflexivity].
    apply String.eqb_eq in Hm. exfalso. apply Hfetch. split; [reflexivity | exact Hm]. }
  split.
  - intros Hs. destruct (fetch_settlesInTime net _ Hs) as [_ Hf].
    unfold generatePokemon, tryBlock. rewrite Hf. simpl. exact Hcatch.
  - intros res Hs Hok Hj. destruct (fetch_settlesInTime net _ Hs) as [_ Hf].
    unfold generatePokemon, tryBlock. rewrite Hf. simpl. rewrite Hok. simpl.
    rewrite Hj. simpl. exact Hcatch.
Qed.

Lemma foreign_errors_are_rethrown_witness :
  generatePokemon
    (mkNetwork (Some 15)
       (Rejects (newTypeError "NetworkError when attempting to fetch resource.")))
    Samples.draws
  = Throw (newTypeError "NetworkError when attempting to fetch resource.").
Proof.
  apply (foreign_errors_are_rethrown
           (mkNetwork (Some 15)
              (Rejects (newTypeError "NetworkError when attempting to fetch resource.")))
           Samples.draws
           (newTypeError "NetworkError when attempting to fetch resource.")).
  - intros H. vm_compute in H. discriminate H.
  - intros [_ H]. vm_compute in H. discriminate H.
  - in_time.
Defined.

End ClientSpec.


(* ================================================================= *)
(** ** Further properties of the sort *)

Module SortSpec.
Import JsArray App.

Section Comparator.
Context {A : Type}.
Variable cmp : A -> A -> Z.

(** Elements that the comparator never puts after one another stay as
    they are. *)
Lemma sort_unordered (l : list A) :
  (forall a b, In a l -> In b l -> cmp a b <= 0) -> sort cmp l = l.
Proof.
  induction l as [| x l IH]; intros H; [reflexivity |].
  cbn [sort fold_right]. fold (sort cmp l).
  rewrite IH by (intros a b Ha Hb; apply H; right; assumption).
  destruct l as [| y l]; [reflexivity |].
  cbn [insert].
  assert (Hxy : cmp x y <= 0) by (apply H; [left | right; left]; reflexivity).
  apply Z.leb_le in Hxy. rewrite Hxy. reflexivity.
Qed.

Variable key : A -> Z.

(** The comparator orders the elements of [l] by [key]. *)
Definition ordersBy (l : list A) : Prop :=
  forall a b, In a l -> In b l -> (cmp a b <= 0 <-> key a <= key b).

Lemma insert_sorted_on (x : A) (l : list A) :
  ordersBy (x :: l) ->
  StronglySorted (fun a b => key a <= key b) l ->
  StronglySorted (fun a b => key a <= key b) (insert cmp x l).
Proof.
  induction l as [| y l IH]; cbn [insert]; intros Hord Hs.
  - constructor; [constructor | constructor].
  - inversion Hs as [| y' l' Hsl Hall]; subst.
    assert (Hxy : cmp x y <= 0 <-> key x <= key y)
      by (apply Hord; [left | right; left]; reflexivity).
    assert (Hyx : cmp y x <= 0 <-> key y <= key x)
      by (apply Hord; [right; left | left]; reflexivity).
    destruct (cmp x y <=? 0) eqn:Hc.
    + apply Z.leb_le, Hxy in Hc.
      constructor; [exact Hs |].
      constructor; [exact Hc |].
      eapply Forall_impl; [| exact Hall]. intros z Hz. simpl in *. lia.
    + apply Z.leb_gt in Hc.
      assert (Hle : key y <= key x).
      { destruct (Z_le_gt_dec (key x) (key y)) as [Hle | Hgt]; [| lia].
        apply Hxy in Hle. lia. }
      constructor.
      * apply IH; [| exact Hsl].
        intros a b Ha Hb. apply Hord.
        -- destruct Ha as [-> | Ha]; [left; reflexivity | right; right; exact Ha].
        -- destruct Hb as [-> | Hb]; [left; reflexivity | right; right; exact Hb].
      * eapply Permutation_Forall.
        -- apply Permutation_sym. apply JsArraySpec.insert_perm.
        -- constructor; [exact Hle | exact Hall].
Qed.

Lemma sort_sorted_on (l : list A) :
  ordersBy l -> StronglySorted (fun a b => key a <= key b) (sort cmp l).
Proof.
  induction l as [| x l IH]; intros Hord.
  - constructor.
  - cbn [sort fold_right]. fold (sort cmp l). apply insert_sorted_on.
    + intros a b Ha Hb. apply Hord.
      * destruct Ha as [-> | Ha]; [left; reflexivity |].
        right. apply (JsArraySpec.sort_In cmp). exact Ha.
      * destruct Hb as [-> | Hb]; [left; reflexivity |].
        right. apply (JsArraySpec.sort_In cmp). exact Hb.
    + apply IH. intros a b Ha Hb. apply Hord; right; assumption.
Qed.

(** Two lists in the order of the keys that have the same elements of
    each key, in the same order, are the same list. *)
Lemma stable_sorted_unique (l1 l2 : list A) :
  StronglySorted (fun a b => key a <= key b) l1 ->
  StronglySorted (fun a b => key a <= key b) l2 ->
  (forall k, filter (fun a => key a =? k) l1 = filter (fun a => key a =? k) l2) ->
  l1 = l2.
Proof.
  revert l2. induction l1 as [| a l1 IH]; intros l2 H1 H2 Hcl.
  - destruct l2 as [| b l2]; [reflexivity |].
    specialize (Hcl (key b)). cbn [filter] in Hcl.
    rewrite Z.eqb_refl in Hcl. discriminate Hcl.
  - destruct l2 as [| b l2].
    + specialize (Hcl (key a)). cbn [filter] in Hcl.
      rewrite Z.eqb_refl in Hcl. discriminate Hcl.
    + inversion H1 as [| ? ? Hs1 Ha]; subst.
      inversion H2 as [| ? ? Hs2 Hb]; subst.
      assert (Ha_in : In a (b :: l2)).
      { assert (Hin : In a (filter (fun x => key x =? key a) (b :: l2))).
        { rewrite <- (Hcl (key a)). cbn [filter]. rewrite Z.eqb_refl.
          left. reflexivity. }
        apply filter_In in Hin. exact (proj1 Hin). }
      assert (Hb_in : In b (a :: l1)).
      { assert (Hin : In b (filter (fun x => key x =? key b) (a :: l1))).
        { rewrite (Hcl (key b)). cbn [filter]. rewrite Z.eqb_refl.
          left. reflexivity. }
        apply filter_In in Hin. exact (proj1 Hin). }
      assert (Hkey : key a = key b).
      { rewrite Forall_forall in Ha, Hb.
        assert (key b <= key a)
          by (destruct Ha_in as [-> | Hin]; [lia | apply Hb; exact Hin]).
        assert (key a <= key b)
          by (destruct Hb_in as [-> | Hin]; [lia | apply Ha; exact Hin]).
        lia. }
      assert (Hab : a = b).
      { pose proof (Hcl (key a)) as Hk. cbn [filter] in Hk.
        rewrite Z.eqb_refl in Hk. rewrite <- Hkey, Z.eqb_refl in Hk.
        inversion Hk. reflexivity. }
      subst b. f_equal. apply IH; try assumption.
      intros k. specialize (Hcl k). cbn [filter] in Hcl.
      destruct (key a =? k); [inversion Hcl; reflexivity | exact Hcl].
Qed.

End Comparator.

(** The time of a record, 0 standing for a date that does not parse. *)
Definition timeOf (getTime : string -> option Z) (p : Pokemon.t) : Z :=
  match getTime (Pokemon.generatedAt p) with
  | Some t => t
  | None => 0
  end.

(** A record whose date does not parse. *)
Definition undated : Pokemon.t :=
  Pokemon.mk "pkm_c" "Zubat" PokemonRarity.E "Poison" 20 "Bite" 70 "CCCC"
    "yesterday" PokemonStatus.OWNED.

Lemma countStatus_perm (s : PokemonStatus.t) (l l' : list Pokemon.t) :
  Permutation l l' -> AppSpec.countStatus s l = AppSpec.countStatus s l'.
Proof.
  induction 1 as [| x l l' _ IH | x y l | l l' l'' _ IH1 _ IH2].
  - reflexivity.
  - rewrite !AppSpec.countStatus_cons, IH. reflexivity.
  - rewrite !AppSpec.countStatus_cons. lia.
  - rewrite IH1. exact IH2.
Qed.

Lemma pokedexScore_counts (l : list Pokemon.t) :
  pokedexScore l
  = 10 * AppSpec.countStatus PokemonStatus.OWNED l
    + 2 * AppSpec.countStatus PokemonStatus.RESOLD l.
Proof. unfold pokedexScore. rewrite AppSpec.pokedexScore_from. lia. Qed.

Lemma pokedexScore_perm (l l' : list Pokemon.t) :
  Permutation l l' -> pokedexScore l = pokedexScore l'.
Proof.
  intros H. rewrite !pokedexScore_counts.
  rewrite (countStatus_perm PokemonStatus.OWNED l l' H),
    (countStatus_perm PokemonStatus.RESOLD l l' H).
  reflexivity.
Qed.

Section WithDate.
Variable getTime : string -> option Z.

(** X5: under every sort order, and whatever the dates, the sorted
    collection is a rearrangement of the collection: the same records,
    as many, with the same score. *)
Theorem sortPokemons_rearranges (l : list Pokemon.t) (o : SortOrder) :
  Permutation (sortPokemons getTime l o) l /\
  (forall p, In p (sortPokemons getTime l o) <-> In p l) /\
  List.length (sortPokemons getTime l o) = List.length l /\
  pokedexScore (sortPokemons getTime l o) = pokedexScore l.
Proof.
  assert (Hperm : Permutation (sortPokemons getTime l o) l)
    by apply JsArraySpec.sort_perm.
  split; [exact Hperm |]. split; [| split].
  - intros p. apply JsArraySpec.sort_In.
  - apply Permutation_length. exact Hperm.
  - apply pokedexScore_perm. exact Hperm.
Qed.

Lemma rarityAsc_ordersBy (l : list Pokemon.t) :
  ordersBy (comparePokemons getTime rarityAsc) AppSpec.rarityValue l.
Proof. intros a b _ _. unfold comparePokemons, AppSpec.rarityValue. lia. Qed.

Lemma rarityDesc_ordersBy (l : list Pokemon.t) :
  ordersBy (comparePokemons getTime rarityDesc) (fun p => - AppSpec.rarityValue p) l.
Proof. intros a b _ _. unfold comparePokemons, AppSpec.rarityValue. lia. Qed.

(** X6: the ascending sort has the rarities from F to S+, every record
    before the records of higher or equal rarity, and the descending
    sort has them from S+ to F. *)
Theorem rarity_sorts_are_ordered (l : list Pokemon.t) :
  StronglySorted
    (fun a b => RARITY_VALUES (Pokemon.rarity a) <= RARITY_VALUES (Pokemon.rarity b))
    (sortPokemons getTime l rarityAsc) /\
  StronglySorted
    (fun a b => RARITY_VALUES (Pokemon.rarity b) <= RARITY_VALUES (Pokemon.rarity a))
    (sortPokemons getTime l rarityDesc).
Proof.
  split.
  - apply (sort_sorted_on _ AppSpec.rarityValue). apply rarityAsc_ordersBy.
  - pose proof (sort_sorted_on _ _ l (rarityDesc_ordersBy l)) as Hs.
    eapply StronglySorted_ind with (P := fun l' =>
      StronglySorted
        (fun a b => RARITY_VALUES (Pokemon.rarity b) <= RARITY_VALUES (Pokemon.rarity a)) l');
      [constructor | | exact Hs].
    intros a l' _ IH Hall. constructor; [exact IH |].
    eapply Forall_impl; [| exact Hall].
    intros b Hb. unfold AppSpec.rarityValue in Hb. lia.
Qed.

(** X7: when the dates of the records parse, the sort by newest first
    has every record before the records that are older or of the same
    time. *)
Theorem newestFirst_is_ordered (l : list Pokemon.t) :
  (forall p, In p l -> getTime (Pokemon.generatedAt p) <> None) ->
  StronglySorted (fun a b => timeOf getTime b <= timeOf getTime a)
    (sortPokemons getTime l newestFirst).
Proof.
  intros Hdated.
  assert (Hord : ordersBy (comparePokemons getTime newestFirst)
                   (fun p => - timeOf getTime p) l).
  { intros a b Ha Hb. unfold comparePokemons, timeOf.
    pose proof (Hdated a Ha) as Hda. pose proof (Hdated b Hb) as Hdb.
    destruct (getTime (Pokemon.generatedAt a)); [| contradiction].
    destruct (getTime (Pokemon.generatedAt b)); [| contradiction].
    lia. }
  pose proof (sort_sorted_on _ _ l Hord) as Hs.
  eapply StronglySorted_ind with (P := fun l' =>
    StronglySorted (fun a b => timeOf getTime b <= timeOf getTime a) l');
    [constructor | | exact Hs].
  intros a l' _ IH Hall. constructor; [exact IH |].
  eapply Forall_impl; [| exact Hall].
  intros b Hb. simpl in Hb. lia.
Qed.

(** X8: when no date of the records parses, every comparison by date
    is [NaN] and the sort by newest first leaves the collection in the
    order it has. *)
Theorem newestFirst_without_dates (l : list Pokemon.t) :
  (forall p, In p l -> getTime (Pokemon.generatedAt p) = None) ->
  sortPokemons getTime l newestFirst = l.
Proof.
  intros Hnone. apply sort_unordered.
  intros a b Ha Hb. unfold comparePokemons.
  rewrite (Hnone a Ha). destruct (getTime (Pokemon.generatedAt b)); lia.
Qed.

Lemma rarity_sort_classes (o : SortOrder) (k : Z) (l : list Pokemon.t) :
  o <> newestFirst ->
  filter (fun p => AppSpec.rarityValue p =? k) (sortPokemons getTime l o)
  = filter (fun p => AppSpec.rarityValue p =? k) l.
Proof.
  intros Ho. destruct o; [contradiction | |].
  - apply (JsArraySpec.sort_stable _ AppSpec.rarityValue).
    intros a b. unfold comparePokemons, AppSpec.rarityValue. lia.
  - pose proof (JsArraySpec.sort_stable (comparePokemons getTime rarityDesc)
                  (fun p => - AppSpec.rarityValue p)) as Hst.
    specialize (Hst ltac:(intros a b; unfold comparePokemons, AppSpec.rarityValue; lia)
                    (- k) l).
    assert (Hext : forall p,
               (- AppSpec.rarityValue p =? - k) = (AppSpec.rarityValue p =? k)).
    { intros p. destruct (Z.eqb_spec (AppSpec.rarityValue p) k) as [He | He];
        [apply Z.eqb_eq; lia | apply Z.eqb_neq; lia]. }
    rewrite <- (filter_ext _ _ Hext (sortPokemons getTime l rarityDesc)),
      <- (filter_ext _ _ Hext l).
    exact Hst.
Qed.

(** X9: between the two sorts by rarity the order chosen before leaves
    no trace: sorting a collection that was sorted by rarity, in either
    direction, gives what sorting the collection itself gives; in
    particular sorting twice changes nothing. *)
Theorem rarity_sorts_compose (o1 o2 : SortOrder) (l : list Pokemon.t) :
  o1 <> newestFirst -> o2 <> newestFirst ->
  sortPokemons getTime (sortPokemons getTime l o1) o2 = sortPokemons getTime l o2.
Proof.
  intros H1 H2.
  assert (Hclasses : forall k,
             filter (fun p => AppSpec.rarityValue p =? k)
               (sortPokemons getTime (sortPokemons getTime l o1) o2)
             = filter (fun p => AppSpec.rarityValue p =? k) (sortPokemons getTime l o2)).
  { intros k. rewrite !rarity_sort_classes by assumption. reflexivity. }
  destruct o2; [contradiction | |].
  - apply (stable_sorted_unique AppSpec.rarityValue).
    + apply sort_sorted_on, rarityAsc_ordersBy.
    + apply sort_sorted_on, rarityAsc_ordersBy.
    + exact Hclasses.
  - apply (stable_sorted_unique (fun p => - AppSpec.rarityValue p)).
    + apply sort_sorted_on, rarityDesc_ordersBy.
    + apply sort_sorted_on, rarityDesc_ordersBy.
    + intros k.
      assert (Hext : forall p,
                 (- AppSpec.rarityValue p =? k) = (AppSpec.rarityValue p =? - k)).
      { intros p. destruct (Z.eqb_spec (AppSpec.rarityValue p) (- k)) as [He | He];
          [apply Z.eqb_eq; lia | apply Z.eqb_neq; lia]. }
      rewrite (filter_ext _ _ Hext _), (filter_ext _ _ Hext _).
      apply Hclasses.
Qed.

End WithDate.

Lemma newestFirst_is_ordered_witness :
  StronglySorted
    (fun a b => timeOf AppSamples.getTime b <= timeOf AppSamples.getTime a)
    (sortPokemons AppSamples.getTime [AppSamples.rattata; AppSamples.pidgey] newestFirst).
Proof.
  apply (newestFirst_is_ordered AppSamples.getTime [AppSamples.rattata; AppSamples.pidgey]).
  intros p [<- | [<- | []]]; intros H; vm_compute in H; discriminate H.
Defined.

Lemma newestFirst_without_dates_witness :
  sortPokemons AppSamples.getTime [undated; Pokemon.withStatus PokemonStatus.RESOLD undated]
    newestFirst
  = [undated; Pokemon.withStatus PokemonStatus.RESOLD undated].
Proof.
  apply (newestFirst_without_dates AppSamples.getTime
           [undated; Pokemon.withStatus PokemonStatus.RESOLD undated]).
  intros p [<- | [<- | []]]; reflexivity.
Defined.

Lemma rarity_sorts_compose_witness :
  sortPokemons AppSamples.getTime
    (sortPokemons AppSamples.getTime
       [Samples.voltadraco; AppSamples.rattata; AppSamples.pidgey] rarityDesc)
    rarityAsc
  = sortPokemons AppSamples.getTime
      [Samples.voltadraco; AppSamples.rattata; AppSamples.pidgey] rarityAsc.
Proof.
  apply (rarity_sorts_compose AppSamples.getTime rarityDesc rarityAsc
           [Samples.voltadraco; AppSamples.rattata; AppSamples.pidgey]);
    intros H; discriminate H.
Defined.

End SortSpec.


(* ================================================================= *)
(** ** Memory and store over the flows *)

Module CoordinatorSpec.
Import Js App AppView.

(** The collection in memory is a rearrangement of the records of the
    database and the balance in memory is the balance of the
    database. *)
Definition synced (st : AppState) : Prop :=
  Permutation (pokemons st) (IndexedDbService.records (db st)) /\
  tokenBalance st = IndexedDbService.amount (db st).

(** Memory and store agree, the balance is not negative and no two
    records have one id. *)
Definition consistent (st : AppState) : Prop :=
  synced st /\ 0 <= tokenBalance st /\ NoDup (map Pokemon.id (pokemons st)).

Lemma consistent_mirrored (st : AppState) : consistent st -> AppSpec.mirrored st.
Proof.
  intros ((Hperm & _) & _ & Hnd). split; [exact Hnd |].
  apply Permutation_map. exact Hperm.
Qed.

Lemma POKEMON_RESELL_VALUES_pos (r : PokemonRarity.t) : 0 < POKEMON_RESELL_VALUES r.
Proof. destruct r; reflexivity. Qed.

Lemma replaceById_perm (u : Pokemon.t) (l l' : list Pokemon.t) :
  Permutation l l' -> Permutation (AppSpec.replaceById u l) (AppSpec.replaceById u l').
Proof. intros H. unfold AppSpec.replaceById. apply Permutation_map. exact H. Qed.

(** The store takes the change to RESOLD of every record it has. *)
Lemma updatePokemon_resold (q : Pokemon.t) (d : IndexedDbService.Db) :
  In q (IndexedDbService.records d) ->
  IndexedDbService.updatePokemon (Pokemon.withStatus PokemonStatus.RESOLD q) d
  = Return (IndexedDbService.mkDb
              (AppSpec.replaceById (Pokemon.withStatus PokemonStatus.RESOLD q)
                 (IndexedDbService.records d))
              (IndexedDbService.amount d)).
Proof.
  intros Hin. unfold IndexedDbService.updatePokemon.
  destruct (find _ (IndexedDbService.records d)) as [old |] eqn:Hfind.
  - simpl. rewrite andb_false_r. reflexivity.
  - exfalso. apply (find_none _ _ Hfind) in Hin.
    unfold IndexedDbService.sameId in Hin. simpl in Hin.
    rewrite String.eqb_refl in Hin. discriminate Hin.
Qed.

(** What a record adds to the score. *)
Definition scoreOf (p : Pokemon.t) : Z :=
  match Pokemon.status p with
  | PokemonStatus.OWNED => OWNED_POKEMON_SCORE
  | PokemonStatus.RESOLD => RESOLD_POKEMON_SCORE
  end.

Lemma pokedexScore_cons (p : Pokemon.t) (l : list Pokemon.t) :
  pokedexScore (p :: l) = scoreOf p + pokedexScore l.
Proof.
  rewrite !SortSpec.pokedexScore_counts, !AppSpec.countStatus_cons.
  unfold scoreOf, OWNED_POKEMON_SCORE, RESOLD_POKEMON_SCORE.
  destruct (Pokemon.status p); simpl PokemonStatus.eqb; cbv iota; lia.
Qed.

Lemma replaceById_absent (u : Pokemon.t) (l : list Pokemon.t) :
  (forall q, In q l -> Pokemon.id q <> Pokemon.id u) -> AppSpec.replaceById u l = l.
Proof.
  induction l as [| a l IH]; intros H; [reflexivity |].
  unfold AppSpec.replaceById in *. cbn [map].
  destruct (Pokemon.id a =? Pokemon.id u)%string eqn:Heq.
  - apply String.eqb_eq in Heq. exfalso. apply (H a); [left; reflexivity | exact Heq].
  - f_equal. apply IH. intros q Hq. apply H. right. exact Hq.
Qed.

(** Replacing the one record of an id changes the score by the
    difference of the two records. *)
Lemma pokedexScore_replace (p u : Pokemon.t) (l : list Pokemon.t) :
  NoDup (map Pokemon.id l) -> In p l -> Pokemon.id u = Pokemon.id p ->
  pokedexScore (AppSpec.replaceById u l) = pokedexScore l - scoreOf p + scoreOf u.
Proof.
  intros Hnd Hin Hid. induction l as [| a l IH]; [contradiction |].
  inversion Hnd as [| ? ? Hnotin Hnd']; subst.
  unfold AppSpec.replaceById. cbn [map]. fold (AppSpec.replaceById u l).
  destruct (Pokemon.id a =? Pokemon.id u)%string eqn:Heq.
  - apply String.eqb_eq in Heq.
    assert (a = p) as ->.
    { destruct Hin as [-> | Hin]; [reflexivity |].
      exfalso. apply Hnotin. rewrite Heq, Hid. apply in_map. exact Hin. }
    rewrite replaceById_absent.
    + rewrite !pokedexScore_cons. lia.
    + intros q Hq Hqid. apply Hnotin. rewrite <- Hid, <- Hqid. apply in_map. exact Hq.
  - destruct Hin as [-> | Hin].
    + rewrite Hid, String.eqb_refl in Heq. discriminate Heq.
    + rewrite !pokedexScore_cons, (IH Hnd' Hin). lia.
Qed.

Section WithDate.
Variable getTime : string -> option Z.

(** In a consistent state the resell of a record that is found goes
    through. *)
Lemma resell_found (pokemonId pokemonName : string) (pokemonRarity : PokemonRarity.t)
    (st : AppState) (q : Pokemon.t) :
  consistent st ->
  find (fun p => (Pokemon.id p =? pokemonId)%string) (pokemons st) = Some q ->
  resell getTime pokemonId pokemonName pokemonRarity st
  = (AppSpec.resold getTime st q (POKEMON_RESELL_VALUES pokemonRarity)
       (IndexedDbService.mkDb
          (AppSpec.replaceById (Pokemon.withStatus PokemonStatus.RESOLD q)
             (IndexedDbService.records (db st)))
          (tokenBalance st + POKEMON_RESELL_VALUES pokemonRarity)),
     Return tt).
Proof.
  intros ((Hperm & Hbal) & Hpos & Hnd) Hfind.
  rewrite AppSpec.resell_run, Hfind.
  assert (Hin : In q (IndexedDbService.records (db st))).
  { apply find_some in Hfind. eapply Permutation_in; [exact Hperm | exact (proj1 Hfind)]. }
  rewrite (updatePokemon_resold q (db st) Hin).
  pose proof (POKEMON_RESELL_VALUES_pos pokemonRarity) as Hv.
  rewrite AppSpec.updateTokenBalance_ok by lia.
  reflexivity.
Qed.

Lemma resell_consistent (pokemonId pokemonName : string) (pokemonRarity : PokemonRarity.t)
    (st : AppState) :
  consistent st ->
  consistent (fst (resell getTime pokemonId pokemonName pokemonRarity st)).
Proof.
  intros Hc.
  destruct (find (fun p => (Pokemon.id p =? pokemonId)%string) (pokemons st))
    as [q |] eqn:Hfind.
  - rewrite (resell_found _ _ _ _ q Hc Hfind).
    pose proof (AppSpec.resell_mirrored getTime pokemonId pokemonName pokemonRarity st
                  (consistent_mirrored st Hc)) as [Hnd' _].
    rewrite (resell_found _ _ _ _ q Hc Hfind) in Hnd'.
    destruct Hc as ((Hperm & Hbal) & Hpos & Hnd).
    pose proof (POKEMON_RESELL_VALUES_pos pokemonRarity) as Hv.
    unfold consistent, synced, AppSpec.resold in *.
    cbn [fst pokemons db tokenBalance IndexedDbService.records IndexedDbService.amount] in *.
    repeat split.
    + eapply perm_trans; [apply JsArraySpec.sort_perm |].
      apply replaceById_perm. exact Hperm.
    + lia.
    + exact Hnd'.
  - rewrite AppSpec.resell_run, Hfind. exact Hc.
Qed.

Lemma generate_consistent (net : Remote.Network) (rnd : Remote.Randoms) (st : AppState) :
  consistent st -> consistent (fst (handleGeneratePokemon getTime net rnd st)).
Proof.
  intros Hc.
  pose proof (AppSpec.handleGeneratePokemon_mirrored getTime net rnd st
                (consistent_mirrored st Hc)) as [Hnd' _].
  destruct Hc as ((Hperm & Hbal) & Hpos & Hnd).
  destruct (Z_lt_le_dec (tokenBalance st) GENERATION_COST) as [Hlt | Hle].
  - apply Z.ltb_lt in Hlt. unfold handleGeneratePokemon. rewrite Hlt.
    repeat split; assumption.
  - rewrite (AppSpec.handleGeneratePokemon_run getTime net rnd st Hle) in *.
    unfold GENERATION_COST in Hle.
    destruct (PokemonApiService.generatePokemon net rnd) as [p | e].
    + destruct (IndexedDbService.addPokemon p (db st)) as [d | e].
      * unfold consistent, synced, AppSpec.settled in *.
        cbn [fst pokemons db tokenBalance IndexedDbService.records
               IndexedDbService.amount] in *.
        repeat split.
        -- eapply perm_trans; [apply JsArraySpec.sort_perm |].
           eapply perm_trans; [apply perm_skip; exact Hperm |].
           apply Permutation_cons_append.
        -- unfold GENERATION_COST. lia.
        -- exact Hnd'.
      * repeat split; assumption.
    + repeat split; assumption.
Qed.

Lemma handleGeneratePokemon_returns (net : Remote.Network) (rnd : Remote.Randoms)
    (st : AppState) :
  snd (handleGeneratePokemon getTime net rnd st) = Return tt.
Proof.
  destruct (Z_lt_le_dec (tokenBalance st) GENERATION_COST) as [Hlt | Hle].
  - apply Z.ltb_lt in Hlt. unfold handleGeneratePokemon. rewrite Hlt. reflexivity.
  - rewrite (AppSpec.handleGeneratePokemon_run getTime net rnd st Hle).
    destruct (PokemonApiService.generatePokemon net rnd) as [p | e]; [| reflexivity].
    destruct (IndexedDbService.addPokemon p (db st)); reflexivity.
Qed.

(** X11: the resell flow keeps memory and store in step: from such a
    state every resell, whatever id, name and rarity it is asked with,
    ends in such a state, with the handler returned. *)
Theorem resell_keeps_memory_and_store_in_step (pokemonId pokemonName : string)
    (pokemonRarity : PokemonRarity.t) (st : AppState) :
  consistent st ->
  consistent (fst (resell getTime pokemonId pokemonName pokemonRarity st)) /\
  snd (resell getTime pokemonId pokemonName pokemonRarity st) = Return tt.
Proof.
  intros Hc. split.
  - apply resell_consistent. exact Hc.
  - rewrite AppSpec.resell_run.
    destruct (find _ (pokemons st)) as [q |]; [| reflexivity].
    destruct (IndexedDbService.updatePokemon _ (db st)) as [d1 | e]; [| reflexivity].
    destruct (IndexedDbService.updateTokenBalance _ d1); reflexivity.
Qed.

(** X12: in such a state the resell of a record of the collection cannot
    fail, and the handler does not look at the status: for an OWNED and
    for a RESOLD record alike the balance gains the value of the rarity,
    in memory and in the database, the record is in the collection as
    RESOLD and the success is shown. *)
Theorem resell_in_step_goes_through (st : AppState) (p : Pokemon.t) :
  consistent st ->
  In p (pokemons st) ->
  let st' := fst (resell getTime (Pokemon.id p) (Pokemon.name p) (Pokemon.rarity p) st) in
  tokenBalance st' = tokenBalance st + POKEMON_RESELL_VALUES (Pokemon.rarity p) /\
  IndexedDbService.getTokenBalance (db st')
  = tokenBalance st + POKEMON_RESELL_VALUES (Pokemon.rarity p) /\
  In (Pokemon.withStatus PokemonStatus.RESOLD p) (pokemons st') /\
  message st'
  = Some (mkMessage MessageType.success
            (Pokemon.name p ++ " resold successfully! You gained "
             ++ numberToString (POKEMON_RESELL_VALUES (Pokemon.rarity p)) ++ " tokens.")).
Proof.
  intros Hc Hin.
  assert (Hfind : find (fun q => (Pokemon.id q =? Pokemon.id p)%string) (pokemons st)
                  = Some p).
  { apply AppSpec.find_by_id; [exact (proj2 (proj2 Hc)) | exact Hin]. }
  rewrite (resell_found _ _ _ _ p Hc Hfind).
  unfold AppSpec.resold.
  cbn [fst pokemons db tokenBalance message IndexedDbService.getTokenBalance
         IndexedDbService.amount].
  repeat split.
  apply JsArraySpec.sort_In.
  apply (AppSpec.replaceById_In _ p); [exact Hin | reflexivity].
Qed.

(** X13: nothing undoes the first write of a resell.  When the store
    takes the change of status and then refuses the new balance, the
    record is RESOLD in the database while the collection and the balance
    in memory, and the balance of the database, are those of before; the
    store refuses a balance only when it is negative. *)
Theorem resell_leaves_the_status_written (pokemonId pokemonName : string)
    (pokemonRarity : PokemonRarity.t) (st : AppState) (q : Pokemon.t)
    (d1 : IndexedDbService.Db) (e : IndexedDbService.StoreError) :
  find (fun p => (Pokemon.id p =? pokemonId)%string) (pokemons st) = Some q ->
  IndexedDbService.updatePokemon (Pokemon.withStatus PokemonStatus.RESOLD q) (db st)
  = Return d1 ->
  IndexedDbService.updateTokenBalance
    (tokenBalance st + POKEMON_RESELL_VALUES pokemonRarity) d1 = Throw e ->
  let st' := fst (resell getTime pokemonId pokemonName pokemonRarity st) in
  pokemons st' = pokemons st /\
  tokenBalance st' = tokenBalance st /\
  IndexedDbService.getPokemons (db st')
  = AppSpec.replaceById (Pokemon.withStatus PokemonStatus.RESOLD q)
      (IndexedDbService.getPokemons (db st)) /\
  IndexedDbService.getTokenBalance (db st') = IndexedDbService.getTokenBalance (db st) /\
  message st'
  = Some (mkMessage MessageType.error
            ("Failed to resell Pokémon: " ++ errorText (StoreError e))) /\
  tokenBalance st + POKEMON_RESELL_VALUES pokemonRarity < 0.
Proof.
  intros Hfind Hup Hbal. rewrite AppSpec.resell_run, Hfind, Hup, Hbal.
  apply AppSpec.updatePokemon_records in Hup. destruct Hup as [Hr Ha].
  unfold IndexedDbService.updateTokenBalance in Hbal.
  destruct (tokenBalance st + POKEMON_RESELL_VALUES pokemonRarity <? 0) eqn:Hneg;
    [| discriminate Hbal].
  inversion Hbal. subst e. apply Z.ltb_lt in Hneg.
  unfold AppSpec.refused, IndexedDbService.getPokemons, IndexedDbService.getTokenBalance.
  cbn [fst pokemons db tokenBalance message].
  repeat split; assumption.
Qed.

(** X14: a generation that goes through adds the 10 of an OWNED record
    to the score, whatever the sort order puts the new record at. *)
Theorem generation_adds_ten_to_the_score (net : Remote.Network) (rnd : Remote.Randoms)
    (st : AppState) (p : Pokemon.t) (d : IndexedDbService.Db) :
  GENERATION_COST <= tokenBalance st ->
  PokemonApiService.generatePokemon net rnd = Return p ->
  IndexedDbService.addPokemon p (db st) = Return d ->
  pokedexScore (pokemons (fst (handleGeneratePokemon getTime net rnd st)))
  = pokedexScore (pokemons st) + 10.
Proof.
  intros Hcost Hgen Hadd.
  rewrite (AppSpec.handleGeneratePokemon_run getTime net rnd st Hcost), Hgen, Hadd.
  unfold AppSpec.settled. cbn [fst pokemons].
  rewrite (SortSpec.pokedexScore_perm _ (p :: pokemons st))
    by apply JsArraySpec.sort_perm.
  rewrite pokedexScore_cons.
  apply PokemonApiServiceSpec.generatePokemon_Return_inv in Hgen.
  destruct Hgen as (res & b & md & _ & _ & _ & _ & _ & ->).
  unfold scoreOf, PokemonApiService.toPokemon. cbn [Pokemon.status].
  unfold OWNED_POKEMON_SCORE. lia.
Qed.

(** X15: in a state in step, the resell of an OWNED record of the
    collection takes 8 off the score, the record counting 2 where it
    counted 10, and the resell of a RESOLD record leaves the score. *)
Theorem resell_takes_eight_off_the_score (st : AppState) (p : Pokemon.t) :
  consistent st ->
  In p (pokemons st) ->
  pokedexScore
    (pokemons (fst (resell getTime (Pokemon.id p) (Pokemon.name p) (Pokemon.rarity p) st)))
  = pokedexScore (pokemons st)
    - match Pokemon.status p with
      | PokemonStatus.OWNED => 8
      | PokemonStatus.RESOLD => 0
      end.
Proof.
  intros Hc Hin.
  assert (Hnd : NoDup (map Pokemon.id (pokemons st))) by exact (proj2 (proj2 Hc)).
  rewrite (resell_found _ _ _ _ p Hc (AppSpec.find_by_id p (pokemons st) Hnd Hin)).
  unfold AppSpec.resold. cbn [fst pokemons].
  rewrite (SortSpec.pokedexScore_perm _
             (AppSpec.replaceById (Pokemon.withStatus PokemonStatus.RESOLD p) (pokemons st)))
    by apply JsArraySpec.sort_perm.
  rewrite (pokedexScore_replace p (Pokemon.withStatus PokemonStatus.RESOLD p) _
             Hnd Hin eq_refl).
  unfold scoreOf, Pokemon.withStatus. cbn [Pokemon.status].
  unfold OWNED_POKEMON_SCORE, RESOLD_POKEMON_SCORE.
  destruct (Pokemon.status p); lia.
Qed.

(** X16: every resell flow, found or not, written or refused, ends with
    the modal closed and without a confirm handler, so that confirming
    once more does nothing. *)
Theorem resell_closes_the_modal (pokemonId pokemonName : string)
    (pokemonRarity : PokemonRarity.t) (st : AppState) :
  let st' := fst (resell getTime pokemonId pokemonName pokemonRarity st) in
  modal st' = mkModal false "" None false None /\
  confirmModal getTime st' = (st', Return tt).
Proof.
  assert (H : modal (fst (resell getTime pokemonId pokemonName pokemonRarity st))
              = mkModal false "" None false None).
  { rewrite AppSpec.resell_run.
    destruct (find _ (pokemons st)) as [q |]; [| reflexivity].
    destruct (IndexedDbService.updatePokemon _ (db st)) as [d1 | e]; [| reflexivity].
    destruct (IndexedDbService.updateTokenBalance _ d1); reflexivity. }
  split; [exact H |].
  unfold confirmModal. rewrite H. reflexivity.
Qed.

(** X18: the load makes memory the mirror of the store, whatever was in
    memory: the collection is the records of the database sorted under
    the current order, the balance is the balance of the database, the
    message is cleared and the load flag lowered; over a database with a
    balance that is not negative and distinct ids the state is in
    step. *)
Theorem load_mirrors_the_store (c : Component) :
  let c' := fetchAppData getTime c in
  isLoading c' = false /\
  pokemons (state c')
  = sortPokemons getTime (IndexedDbService.getPokemons (db (state c)))
      (sortOrder (state c)) /\
  tokenBalance (state c') = IndexedDbService.getTokenBalance (db (state c)) /\
  message (state c') = None /\
  db (state c') = db (state c) /\
  sortOrder (state c') = sortOrder (state c) /\
  synced (state c') /\
  (0 <= IndexedDbService.getTokenBalance (db (state c)) ->
   NoDup (map Pokemon.id (IndexedDbService.getPokemons (db (state c)))) ->
   consistent (state c')).
Proof.
  unfold fetchAppData, fetchTry, tryCatchFinally, bindM, readDb, setPokemons,
    setTokenBalance, setMessage, ret.
  cbn [state fst snd pokemons tokenBalance message db sortOrder isLoading].
  assert (Hperm : Permutation
                    (sortPokemons getTime (IndexedDbService.getPokemons (db (state c)))
                       (sortOrder (state c)))
                    (IndexedDbService.records (db (state c))))
    by apply JsArraySpec.sort_perm.
  repeat split; try assumption.
  eapply Permutation_NoDup; [| eassumption].
  apply Permutation_map, Permutation_sym. exact Hperm.
Qed.

(** X19: a change of the sort order loads again: the collection becomes
    the records of the database sorted under the new order, and over a
    state whose memory mirrors the store no record is lost and the
    balance stays. *)
Theorem change_of_order_loads_again (v : SortOrder) (c : Component) :
  let c' := changeSortOrder getTime v c in
  sortOrder (state c') = v /\
  pokemons (state c')
  = sortPokemons getTime (IndexedDbService.getPokemons (db (state c))) v /\
  db (state c') = db (state c) /\
  isLoading c' = false /\
  (synced (state c) ->
   Permutation (pokemons (state c')) (pokemons (state c)) /\
   tokenBalance (state c') = tokenBalance (state c)).
Proof.
  unfold changeSortOrder, fetchAppData, fetchTry, resortEffect, setSortOrder,
    tryCatchFinally, bindM, readDb, setPokemons, setTokenBalance, setMessage, ret.
  cbn [state fst snd pokemons tokenBalance message db sortOrder isLoading].
  do 4 (split; [reflexivity |]).
  intros [Hperm Hbal]. split.
  - eapply perm_trans; [apply JsArraySpec.sort_perm |].
    apply Permutation_sym. exact Hperm.
  - symmetry. exact Hbal.
Qed.

(** X20: no flow loses or reverts a record.  Generation keeps every
    record of the collection as it is; over distinct ids, the resell
    keeps every record or, for the one of the id asked for, has it as
    RESOLD with its other fields, and a RESOLD record stays as it is. *)
Theorem no_record_is_lost (st : AppState) :
  (forall net rnd q,
      In q (pokemons st) ->
      In q (pokemons (fst (handleGeneratePokemon getTime net rnd st)))) /\
  (NoDup (map Pokemon.id (pokemons st)) ->
   forall pokemonId pokemonName pokemonRarity q,
     In q (pokemons st) ->
     let st' := fst (resell getTime pokemonId pokemonName pokemonRarity st) in
     (In q (pokemons st') \/
      (Pokemon.id q = pokemonId /\
       In (Pokemon.withStatus PokemonStatus.RESOLD q) (pokemons st'))) /\
     (Pokemon.status q = PokemonStatus.RESOLD -> In q (pokemons st'))).
Proof.
  split.
  - intros net rnd q Hq.
    destruct (Z_lt_le_dec (tokenBalance st) GENERATION_COST) as [Hlt | Hle].
    + apply Z.ltb_lt in Hlt. unfold handleGeneratePokemon. rewrite Hlt. exact Hq.
    + rewrite (AppSpec.handleGeneratePokemon_run getTime net rnd st Hle).
      destruct (PokemonApiService.generatePokemon net rnd) as [p | e]; [| exact Hq].
      destruct (IndexedDbService.addPokemon p (db st)) as [d | e]; [| exact Hq].
      unfold AppSpec.settled. cbn [fst pokemons].
      apply JsArraySpec.sort_In. right. exact Hq.
  - intros Hnd pokemonId pokemonName pokemonRarity q Hq.
    rewrite AppSpec.resell_run.
    destruct (find _ (pokemons st)) as [q0 |] eqn:Hfind;
      [| split; [left; exact Hq | intros _; exact Hq]].
    destruct (IndexedDbService.updatePokemon _ (db st)) as [d1 | e];
      [| split; [left; exact Hq | intros _; exact Hq]].
    destruct (IndexedDbService.updateTokenBalance _ d1) as [d2 | e];
      [| split; [left; exact Hq | intros _; exact Hq]].
    unfold AppSpec.resold. cbn [fst pokemons].
    apply find_some in Hfind. destruct Hfind as [Hq0 Hid0].
    apply String.eqb_eq in Hid0.
    destruct (String.eqb_spec (Pokemon.id q) pokemonId) as [Hid | Hid].
    + assert (q0 = q) as ->.
      { pose proof (AppSpec.find_by_id q (pokemons st) Hnd Hq) as Hf1.
        pose proof (AppSpec.find_by_id q0 (pokemons st) Hnd Hq0) as Hf2.
        rewrite Hid in Hf1. rewrite Hid0 in Hf2. rewrite Hf1 in Hf2.
        inversion Hf2. reflexivity. }
      assert (Hin' : In (Pokemon.withStatus PokemonStatus.RESOLD q)
                       (sortPokemons getTime
                          (AppSpec.replaceById (Pokemon.withStatus PokemonStatus.RESOLD q)
                             (pokemons st))
                          (sortOrder st))).
      { apply JsArraySpec.sort_In.
        apply (AppSpec.replaceById_In _ q); [exact Hq | reflexivity]. }
      split.
      * right. split; [exact Hid | exact Hin'].
      * intros Hst. replace q with (Pokemon.withStatus PokemonStatus.RESOLD q) at 1;
          [exact Hin' |].
        destruct q; simpl in Hst; subst; reflexivity.
    + assert (Hin' : In q (sortPokemons getTime
                             (AppSpec.replaceById
                                (Pokemon.withStatus PokemonStatus.RESOLD q0) (pokemons st))
                             (sortOrder st))).
      { apply JsArraySpec.sort_In. unfold AppSpec.replaceById. apply in_map_iff.
        exists q. split; [| exact Hq].
        simpl. rewrite Hid0.
        destruct (String.eqb_spec (Pokemon.id q) pokemonId); [contradiction | reflexivity]. }
      split; [left; exact Hin' | intros _; exact Hin'].
Qed.

(** X21: generating a Pokémon and reselling it at once leaves the
    balance at the initial one less the cost of 10 plus the value of its
    rarity, in memory and in the database; the value covers the cost
    exactly for the rarities B, A, S and S+. *)
Theorem generate_then_resell (net : Remote.Network) (rnd : Remote.Randoms)
    (st : AppState) (p : Pokemon.t) (d : IndexedDbService.Db) :
  consistent st ->
  GENERATION_COST <= tokenBalance st ->
  PokemonApiService.generatePokemon net rnd = Return p ->
  IndexedDbService.addPokemon p (db st) = Return d ->
  let st1 := fst (handleGeneratePokemon getTime net rnd st) in
  let st2 := fst (resell getTime (Pokemon.id p) (Pokemon.name p) (Pokemon.rarity p) st1) in
  tokenBalance st2
  = tokenBalance st - GENERATION_COST + POKEMON_RESELL_VALUES (Pokemon.rarity p) /\
  IndexedDbService.getTokenBalance (db st2) = tokenBalance st2 /\
  (tokenBalance st <= tokenBalance st2 <->
   In (Pokemon.rarity p)
     [PokemonRarity.B; PokemonRarity.A; PokemonRarity.S; PokemonRarity.S_PLUS]).
Proof.
  intros Hc Hcost Hgen Hadd st1 st2.
  assert (Hc1 : consistent st1) by (apply generate_consistent; exact Hc).
  assert (Hst1 : st1 = AppSpec.settled getTime st p).
  { unfold st1.
    rewrite (AppSpec.handleGeneratePokemon_run getTime net rnd st Hcost), Hgen, Hadd.
    reflexivity. }
  assert (Hin : In p (pokemons st1)).
  { rewrite Hst1. unfold AppSpec.settled. cbn [pokemons].
    apply JsArraySpec.sort_In. left. reflexivity. }
  assert (Hfind := AppSpec.find_by_id p (pokemons st1) (proj2 (proj2 Hc1)) Hin).
  assert (Hbal : tokenBalance st2
                 = tokenBalance st - GENERATION_COST
                   + POKEMON_RESELL_VALUES (Pokemon.rarity p)).
  { unfold st2. rewrite (resell_found _ _ _ _ p Hc1 Hfind).
    unfold AppSpec.resold. cbn [fst tokenBalance]. rewrite Hst1. reflexivity. }
  split; [exact Hbal |]. split.
  - unfold st2. rewrite (resell_found _ _ _ _ p Hc1 Hfind). reflexivity.
  - rewrite Hbal. unfold GENERATION_COST.
    destruct (Pokemon.rarity p); simpl; split; intros H;
      try lia; try (repeat destruct H as [H | H]; try discriminate H; contradiction);
      tauto.
Qed.

End WithDate.

(** A state in step: one OWNED record of rarity A, five tokens. *)
Lemma consistent_oneOwned : consistent AppSamples.oneOwned.
Proof.
  repeat split.
  - apply Permutation_refl.
  - vm_compute. discriminate.
  - constructor; [intros [] | constructor].
Qed.


Lemma consistent_fresh : consistent AppSamples.fresh.
Proof.
  repeat split.
  - apply Permutation_refl.
  - vm_compute. discriminate.
  - constructor.
Qed.

(** A state whose balances are overdrawn. *)
Definition overdrawn : AppState :=
  mkState [AppSamples.rattata] (-50) false None newestFirst AppSamples.closedModal
    (IndexedDbService.mkDb [AppSamples.rattata] (-50)).

Lemma resell_keeps_memory_and_store_in_step_witness :
  consistent
    (fst (resell AppSamples.getTime (Pokemon.id Samples.voltadraco) "Voltadraco"
            PokemonRarity.A AppSamples.oneOwned)).
Proof.
  apply (resell_keeps_memory_and_store_in_step AppSamples.getTime
           (Pokemon.id Samples.voltadraco) "Voltadraco" PokemonRarity.A AppSamples.oneOwned).
  repeat split;
    [apply Permutation_refl | vm_compute; discriminate
    | constructor; [intros [] | constructor]].
Defined.

(** The resell of a record that is RESOLD: 23 tokens, then 23 + 18. *)
Lemma resell_in_step_goes_through_witness :
  let p := Pokemon.withStatus PokemonStatus.RESOLD Samples.voltadraco in
  tokenBalance
    (fst (resell AppSamples.getTime (Pokemon.id p) (Pokemon.name p) (Pokemon.rarity p)
            AppSamples.oneResold))
  = 23 + 18.
Proof.
  intros p.
  destruct (resell_in_step_goes_through AppSamples.getTime AppSamples.oneResold p)
    as (H & _).
  - repeat split;
      [apply Permutation_refl | vm_compute; discriminate
      | constructor; [intros [] | constructor]].
  - left. reflexivity.
  - exact H.
Defined.

(** Balance 10, nothing collected: the score goes from 0 to 10. *)
Lemma generation_adds_ten_to_the_score_witness :
  pokedexScore
    (pokemons (fst (handleGeneratePokemon AppSamples.getTime
                      (Samples.answers (Samples.okResponse (Some Samples.voltadracoBody)))
                      Samples.draws AppSamples.fresh)))
  = pokedexScore (pokemons AppSamples.fresh) + 10.
Proof.
  exact (generation_adds_ten_to_the_score AppSamples.getTime
           (Samples.answers (Samples.okResponse (Some Samples.voltadracoBody)))
           Samples.draws AppSamples.fresh Samples.voltadraco
           (IndexedDbService.mkDb [Samples.voltadraco] 10)
           ltac:(vm_compute; discriminate) eq_refl eq_refl).
Defined.

Lemma resell_takes_eight_off_the_score_witness :
  pokedexScore
    (pokemons (fst (resell AppSamples.getTime (Pokemon.id Samples.voltadraco)
                      (Pokemon.name Samples.voltadraco) (Pokemon.rarity Samples.voltadraco)
                      AppSamples.oneOwned)))
  = pokedexScore (pokemons AppSamples.oneOwned)
    - match Pokemon.status Samples.voltadraco with
      | PokemonStatus.OWNED => 8
      | PokemonStatus.RESOLD => 0
      end.
Proof.
  apply (resell_takes_eight_off_the_score AppSamples.getTime AppSamples.oneOwned
           Samples.voltadraco).
  - repeat split;
      [apply Permutation_refl | vm_compute; discriminate
      | constructor; [intros [] | constructor]].
  - left. reflexivity.
Defined.

(** The first load over a database of one record and five tokens. *)
Lemma load_mirrors_the_store_witness :
  consistent
    (state (fetchAppData AppSamples.getTime
              (initial (IndexedDbService.mkDb [Samples.voltadraco] 5)))).
Proof.
  apply (load_mirrors_the_store AppSamples.getTime
           (initial (IndexedDbService.mkDb [Samples.voltadraco] 5))).
  - vm_compute. discriminate.
  - constructor; [intros [] | constructor].
Defined.

Lemma change_of_order_loads_again_witness :
  Permutation
    (pokemons (state (changeSortOrder AppSamples.getTime rarityAsc
                        (mkComponent false AppSamples.oneOwned))))
    (pokemons (state (mkComponent false AppSamples.oneOwned))).
Proof.
  apply (change_of_order_loads_again AppSamples.getTime rarityAsc
           (mkComponent false AppSamples.oneOwned)).
  split; [apply Permutation_refl | reflexivity].
Defined.

Lemma no_record_is_lost_witness :
  In (Pokemon.withStatus PokemonStatus.RESOLD Samples.voltadraco)
    (pokemons (fst (resell AppSamples.getTime (Pokemon.id Samples.voltadraco) "Voltadraco"
                      PokemonRarity.A AppSamples.oneResold))).
Proof.
  apply (proj2 (no_record_is_lost AppSamples.getTime AppSamples.oneResold)
           (NoDup_cons _ (fun H : In _ [] => H) (NoDup_nil _))
           (Pokemon.id Samples.voltadraco) "Voltadraco" PokemonRarity.A
           (Pokemon.withStatus PokemonStatus.RESOLD Samples.voltadraco)
           (or_introl eq_refl)).
  reflexivity.
Defined.

(** Balance 10, a Pokémon of rarity A: 10 - 10 + 18. *)
Lemma generate_then_resell_witness :
  let st1 := fst (handleGeneratePokemon AppSamples.getTime
                    (Samples.answers (Samples.okResponse (Some Samples.voltadracoBody)))
                    Samples.draws AppSamples.fresh) in
  tokenBalance
    (fst (resell AppSamples.getTime (Pokemon.id Samples.voltadraco)
            (Pokemon.name Samples.voltadraco) (Pokemon.rarity Samples.voltadraco) st1))
  = tokenBalance AppSamples.fresh - GENERATION_COST
    + POKEMON_RESELL_VALUES (Pokemon.rarity Samples.voltadraco).
Proof.
  apply (generate_then_resell AppSamples.getTime
           (Samples.answers (Samples.okResponse (Some Samples.voltadracoBody)))
           Samples.draws AppSamples.fresh Samples.voltadraco
           (IndexedDbService.mkDb [Samples.voltadraco] 10)).
  - repeat split; [apply Permutation_refl | vm_compute; discriminate | constructor].
  - vm_compute. discriminate.
  - reflexivity.
  - reflexivity.
Defined.

Lemma resell_leaves_the_status_written_witness :
  let st' := fst (resell AppSamples.getTime "pkm_a" "Rattata" PokemonRarity.F overdrawn) in
  pokemons st' = [AppSamples.rattata] /\
  IndexedDbService.getPokemons (db st')
  = [Pokemon.withStatus PokemonStatus.RESOLD AppSamples.rattata].
Proof.
  destruct (resell_leaves_the_status_written AppSamples.getTime "pkm_a" "Rattata"
              PokemonRarity.F overdrawn AppSamples.rattata
              (IndexedDbService.mkDb
                 [Pokemon.withStatus PokemonStatus.RESOLD AppSamples.rattata] (-50))
              IndexedDbService.InvalidValue eq_refl eq_refl eq_refl)
    as (H1 & _ & H2 & _).
  split; assumption.
Defined.

End CoordinatorSpec.


(* ================================================================= *)
(** ** The flows of the coordinator, one after the other *)
Module RunSpec.
Import Js App AppView CoordinatorSpec.

Local Notation "c ;; k" := (bindM c (fun _ => k))
  (at level 61, right associativity).

(** The state in which [handleGeneratePokemon] waits for the call of
    the client: the cost is debited, in memory and in the database, and
    the flag of the generation is raised. *)
Definition waiting (st : AppState) : AppState :=
  mkState (pokemons st) (tokenBalance st - GENERATION_COST) true (message st)
    (sortOrder st) (modal st)
    (IndexedDbService.mkDb (IndexedDbService.records (db st))
       (tokenBalance st - GENERATION_COST)).

Section WithDate.
Variable getTime : string -> option Z.



(** *** The call that stays pending *)

Lemma generatePokemonAwaited_complete (net : Remote.Network) (rnd : Remote.Randoms) :
  PokemonApiService.generatePokemonAwaited net Remote.Complete rnd
  = Settles (PokemonApiService.generatePokemon net rnd).
Proof.
  unfold PokemonApiService.generatePokemonAwaited.
  destruct (PokemonApiService.fetch net); reflexivity.
Qed.

Lemma generatePokemonAwaited_rejected (net : Remote.Network) (body : Remote.BodyStream)
    (rnd : Remote.Randoms) (e : Error) :
  PokemonApiService.fetch net = Throw e ->
  PokemonApiService.generatePokemonAwaited net body rnd
  = Settles (PokemonApiService.generatePokemon net rnd).
Proof.
  intros H. unfold PokemonApiService.generatePokemonAwaited. rewrite H. reflexivity.
Qed.

Lemma generatePokemonAwaited_stalled (net : Remote.Network) (rnd : Remote.Randoms)
    (res : Remote.Response) :
  PokemonApiService.fetch net = Return res ->
  PokemonApiService.generatePokemonAwaited net Remote.Stalled rnd = Pending.
Proof.
  intros H. unfold PokemonApiService.generatePokemonAwaited. rewrite H. reflexivity.
Qed.

Lemma generatePokemonAwaited_pending (net : Remote.Network) (body : Remote.BodyStream)
    (rnd : Remote.Randoms) :
  PokemonApiService.generatePokemonAwaited net body rnd = Pending ->
  body = Remote.Stalled /\ exists res, PokemonApiService.fetch net = Return res.
Proof.
  unfold PokemonApiService.generatePokemonAwaited.
  destruct (PokemonApiService.fetch net) as [res | e]; [| discriminate].
  destruct body; [discriminate |].
  intros _. split; [reflexivity | exists res; reflexivity].
Qed.

Lemma generateUpToCall_run (st : AppState) :
  GENERATION_COST <= tokenBalance st ->
  generateUpToCall (tokenBalance st) st = (waiting st, Return tt).
Proof.
  intros Hcost. unfold GENERATION_COST in Hcost.
  unfold generateUpToCall, bindM, setIsGeneratingPokemon, setTokenBalance, indexedDb.
  cbn [fst snd db tokenBalance pokemons message sortOrder modal isGeneratingPokemon].
  rewrite (AppSpec.updateTokenBalance_ok (tokenBalance st - GENERATION_COST))
    by (unfold GENERATION_COST; lia).
  reflexivity.
Qed.

(** Every run of the handler over a body that may stall. *)
Lemma handleGeneratePokemonRun_run (net : Remote.Network) (body : Remote.BodyStream)
    (rnd : Remote.Randoms) (st : AppState) :
  handleGeneratePokemonRun getTime net body rnd st
  = if tokenBalance st <? GENERATION_COST
    then finished (handleGeneratePokemon getTime net rnd st)
    else match PokemonApiService.generatePokemonAwaited net body rnd with
         | Pending => Suspended (waiting st)
         | Settles _ => finished (handleGeneratePokemon getTime net rnd st)
         end.
Proof.
  unfold handleGeneratePokemonRun.
  destruct (tokenBalance st <? GENERATION_COST) eqn:Hlt; [reflexivity |].
  apply Z.ltb_ge in Hlt. rewrite (generateUpToCall_run st Hlt).
  destruct (PokemonApiService.generatePokemonAwaited net body rnd); reflexivity.
Qed.

Lemma waiting_consistent (st : AppState) :
  consistent st -> GENERATION_COST <= tokenBalance st -> consistent (waiting st).
Proof.
  intros ((Hperm & Hbal) & Hpos & Hnd) Hcost. unfold GENERATION_COST in Hcost.
  unfold consistent, synced, waiting.
  cbn [pokemons db tokenBalance IndexedDbService.records IndexedDbService.amount].
  unfold GENERATION_COST. repeat split; [exact Hperm | lia | exact Hnd].
Qed.

Lemma reached_consistent (net : Remote.Network) (body : Remote.BodyStream)
    (rnd : Remote.Randoms) (st : AppState) :
  consistent st -> consistent (reached (handleGeneratePokemonRun getTime net body rnd st)).
Proof.
  intros Hc. rewrite handleGeneratePokemonRun_run.
  destruct (tokenBalance st <? GENERATION_COST) eqn:Hlt.
  - apply generate_consistent. exact Hc.
  - apply Z.ltb_ge in Hlt.
    destruct (PokemonApiService.generatePokemonAwaited net body rnd).
    + apply generate_consistent. exact Hc.
    + apply waiting_consistent; assumption.
Qed.

(** *** What a flow keeps *)













(** *** The generation over a body that may stall *)

(** X10: generation keeps memory and store in step, whatever the
    network does.  From a state in which the collection and the balance
    in memory are those of the database, the balance is not negative and
    the ids are distinct, the handler reaches such a state.  It returns,
    with no failure escaping it, when the balance check refuses, when
    [fetch] fails and when the body is read to its end.  When [fetch]
    resolves and the body then stalls, nothing aborts the read, the timer
    being cleared: the handler stays suspended at the call, with the cost
    debited in memory and in the database, the flag of the generation
    raised, and the collection and the message of before. *)
Theorem generation_keeps_memory_and_store_in_step (net : Remote.Network)
    (body : Remote.BodyStream) (rnd : Remote.Randoms) (st : AppState) :
  consistent st ->
  let r := handleGeneratePokemonRun getTime net body rnd st in
  consistent (reached r) /\
  (tokenBalance st < GENERATION_COST \/ body = Remote.Complete \/
   (exists e, PokemonApiService.fetch net = Throw e) ->
   r = Finished (fst (handleGeneratePokemon getTime net rnd st)) (Return tt)) /\
  (GENERATION_COST <= tokenBalance st -> body = Remote.Stalled ->
   (exists res, PokemonApiService.fetch net = Return res) ->
   r = Suspended (waiting st) /\
   isGeneratingPokemon (reached r) = true /\
   tokenBalance (reached r) = tokenBalance st - GENERATION_COST /\
   IndexedDbService.getTokenBalance (db (reached r)) = tokenBalance st - GENERATION_COST /\
   pokemons (reached r) = pokemons st /\
   message (reached r) = message st).
Proof.
  intros Hc r. split; [apply reached_consistent; exact Hc |]. split.
  - intros Hcase. unfold r. rewrite handleGeneratePokemonRun_run.
    assert (Hfin : finished (handleGeneratePokemon getTime net rnd st)
                   = Finished (fst (handleGeneratePokemon getTime net rnd st)) (Return tt)).
    { unfold finished. rewrite handleGeneratePokemon_returns. reflexivity. }
    destruct (tokenBalance st <? GENERATION_COST) eqn:Hlt; [exact Hfin |].
    apply Z.ltb_ge in Hlt.
    destruct Hcase as [Hlow | [-> | [e He]]].
    + lia.
    + rewrite generatePokemonAwaited_complete. exact Hfin.
    + rewrite (generatePokemonAwaited_rejected net body rnd e He). exact Hfin.
  - intros Hcost -> [res Hres].
    assert (Hr : r = Suspended (waiting st)).
    { unfold r. rewrite handleGeneratePokemonRun_run.
      destruct (tokenBalance st <? GENERATION_COST) eqn:Hlt;
        [apply Z.ltb_lt in Hlt; lia |].
      rewrite (generatePokemonAwaited_stalled net rnd res Hres). reflexivity. }
    rewrite Hr. repeat split; reflexivity.
Qed.

(** X17: a click on the generate button when it is enabled never ends
    in the warning of the balance check.  When the handler comes to its
    end it has returned, the flag of the generation is lowered and the
    message is one of success or of error; when it is left suspended at
    the call, the flag is raised, so that the button is disabled, and the
    message is the one of before. *)
Theorem click_on_the_enabled_generate_button (net : Remote.Network)
    (body : Remote.BodyStream) (rnd : Remote.Randoms) (c : Component) :
  generateDisabled c = false ->
  match handleGeneratePokemonRun getTime net body rnd (state c) with
  | Finished st' ret =>
      ret = Return tt /\
      isGeneratingPokemon st' = false /\
      (exists m, message st' = Some m /\ msgType m <> MessageType.warning) /\
      (body = Remote.Complete \/ exists e, PokemonApiService.fetch net = Throw e)
  | Suspended st' =>
      body = Remote.Stalled /\
      (exists res, PokemonApiService.fetch net = Return res) /\
      isGeneratingPokemon st' = true /\
      generateDisabled (mkComponent (isLoading c) st') = true /\
      tokenBalance st' = tokenBalance (state c) - GENERATION_COST /\
      message st' = message (state c)
  end.
Proof.
  intros Hen. unfold generateDisabled in Hen.
  apply orb_false_elim in Hen. destruct Hen as [_ Hlt].
  rewrite handleGeneratePokemonRun_run, Hlt. apply Z.ltb_ge in Hlt.
  assert (Hfin : snd (handleGeneratePokemon getTime net rnd (state c)) = Return tt /\
                 isGeneratingPokemon (fst (handleGeneratePokemon getTime net rnd (state c)))
                 = false /\
                 exists m, message (fst (handleGeneratePokemon getTime net rnd (state c)))
                           = Some m /\ msgType m <> MessageType.warning).
  { rewrite (AppSpec.handleGeneratePokemon_run getTime net rnd (state c) Hlt).
    destruct (PokemonApiService.generatePokemon net rnd) as [p | e].
    - destruct (IndexedDbService.addPokemon p (db (state c))) as [d | e];
        (split; [reflexivity |]; split;
         [reflexivity | eexists; split; [reflexivity | discriminate]]).
    - split; [reflexivity |]. split;
        [reflexivity | eexists; split; [reflexivity | discriminate]]. }
  destruct (PokemonApiService.generatePokemonAwaited net body rnd) as [c0 |] eqn:Haw.
  - unfold finished. destruct Hfin as (H1 & H2 & H3).
    split; [exact H1 |]. split; [exact H2 |]. split; [exact H3 |].
    revert Haw. unfold PokemonApiService.generatePokemonAwaited.
    destruct (PokemonApiService.fetch net) as [res | e];
      [| intros _; right; exists e; reflexivity].
    destruct body; [intros _; left; reflexivity | discriminate].
  - apply generatePokemonAwaited_pending in Haw. destruct Haw as [Hbody Hres].
    split; [exact Hbody |]. split; [exact Hres |].
    repeat split; reflexivity.
Qed.

(** *** The records a resell is run on *)


End WithDate.

(** A response the head of which is there in time and the body of which
    stalls: the handler is left waiting, ten tokens debited. *)
Lemma generation_keeps_memory_and_store_in_step_witness :
  handleGeneratePokemonRun AppSamples.getTime
    (Samples.answers (Samples.okResponse (Some Samples.voltadracoBody)))
    Remote.Stalled Samples.draws AppSamples.fresh
  = Suspended (waiting AppSamples.fresh).
Proof.
  apply (generation_keeps_memory_and_store_in_step AppSamples.getTime
           (Samples.answers (Samples.okResponse (Some Samples.voltadracoBody)))
           Remote.Stalled Samples.draws AppSamples.fresh consistent_fresh).
  - vm_compute. discriminate.
  - reflexivity.
  - exists (Samples.okResponse (Some Samples.voltadracoBody)). reflexivity.
Defined.

Lemma click_on_the_enabled_generate_button_witness :
  match handleGeneratePokemonRun AppSamples.getTime Samples.silent Remote.Complete
          Samples.draws (state (mkComponent false AppSamples.fresh)) with
  | Finished st' ret =>
      ret = Return tt /\
      isGeneratingPokemon st' = false /\
      (exists m, message st' = Some m /\ msgType m <> MessageType.warning) /\
      (Remote.Complete = Remote.Complete \/
       exists e, PokemonApiService.fetch Samples.silent = Throw e)
  | Suspended st' =>
      Remote.Complete = Remote.Stalled /\
      (exists res, PokemonApiService.fetch Samples.silent = Return res) /\
      isGeneratingPokemon st' = true /\
      generateDisabled (mkComponent (isLoading (mkComponent false AppSamples.fresh)) st')
      = true /\
      tokenBalance st'
      = tokenBalance (state (mkComponent false AppSamples.fresh)) - GENERATION_COST /\
      message st' = message (state (mkComponent false AppSamples.fresh))
  end.
Proof.
  exact (click_on_the_enabled_generate_button AppSamples.getTime Samples.silent
           Remote.Complete Samples.draws (mkComponent false AppSamples.fresh) eq_refl).
Defined.


End RunSpec.
